(** * mesh-magic: the colour codec and the picker state machine

    A shallow embedding of
      - [app/components/ui/color-picker/color.utils.ts]  (the colour codec),
      - [app/components/ui/color-picker/ColorPickerRoot.vue]  (the picker),
    and of the JavaScript operations they call.

    JavaScript numbers are IEEE 754 binary64 values: they are modelled by
    Rocq's primitive [float], so every arithmetic step below rounds exactly
    as the engine does.  Strings are modelled by [string] (one [ascii] per
    UTF-16 code unit, so text outside Latin-1 is not represented). *)

From Stdlib Require Import ZArith List Bool Lia Floats Uint63 String Ascii.
From stdpp Require Import base option strings gmap.
Import ListNotations.

Set Warnings "-inexact-float".

(* ================================================================== *)
(** * JavaScript numbers *)
(* ================================================================== *)

Module JS.

Local Open Scope float_scope.

(** [x === y] and [x !== y] on numbers: IEEE equality ([NaN] differs from
    itself, [+0] equals [-0]). *)
Definition strict_eq (x y : float) : bool := x =? y.
Definition strict_ne (x y : float) : bool := negb (x =? y).

(** [x > y], [x >= y] *)
Definition gtb (x y : float) : bool := y <? x.
Definition geb (x y : float) : bool := y <=? x.

(** [Math.max(x, y)] and [Math.min(x, y)]: [NaN] when an argument is [NaN]
    (every comparison then fails); [+0] counts as larger than [-0]. *)
Definition Math_max (x y : float) : float :=
  if x <? y then y
  else if y <? x then x
  else if x =? y then
    (if PrimFloat.is_zero x then (if get_sign x then y else x) else x)
  else nan.

Definition Math_min (x y : float) : float :=
  if x <? y then x
  else if y <? x then y
  else if x =? y then
    (if PrimFloat.is_zero x then (if get_sign x then x else y) else x)
  else nan.

(** [Math.max(x, y, z)], [Math.min(x, y, z)] fold from the left. *)
Definition Math_max3 (x y z : float) : float := Math_max (Math_max x y) z.
Definition Math_min3 (x y z : float) : float := Math_min (Math_min x y) z.

Definition Math_abs (x : float) : float := abs x.

(** [x % y], the remainder of the truncated division, with the sign of the
    dividend.  It is always exact.
    - [|x| < |y|]: the result is [x] ([y] may be infinite).
    - [|y| <= |x| < 4|y|]: [2|y|] and then [|y|] are taken off when they
      fit; each difference, of two values within a factor two of each
      other, is exact.
    - otherwise, after the cases that give [NaN] ([x] infinite, [y] zero,
      a [NaN] argument): with [|x| = mx * 2^ex] and [|y| = my * 2^ey]
      (53-bit mantissas), the result is [((mx * 2^(ex-ey)) mod my) * 2^ey],
      computed on machine integers when it fits in 63 bits and on [Z]
      otherwise. *)
Definition rem (x y : float) : float :=
  let ax := abs x in
  let ay := abs y in
  if ax <? ay then x
  else if ax <? 4 * ay then
    let r := if 2 * ay <=? ax then ax - 2 * ay else ax in
    let r := if ay <=? r then r - ay else r in
    if x <? 0 then - r else r
  else if is_nan x || is_nan y || is_infinity x || PrimFloat.is_zero y then nan
  else if PrimFloat.is_zero x then x
  else
    let (fx, ex) := frshiftexp ax in
    let (fy, ey) := frshiftexp ay in
    let mx := normfr_mantissa fx in
    let my := normfr_mantissa fy in
    let d := (ex - ey)%uint63 in
    let R := if (d <=? 10)%uint63 then ((mx << d) mod my)%uint63
             else Uint63.of_Z ((Uint63.to_Z mx * 2 ^ Uint63.to_Z d) mod Uint63.to_Z my) in
    let r := ldshiftexp (of_uint63 R) (ey - 53)%uint63 in
    if x <? 0 then - r else r.

(** 2^52: from here on every binary64 value is an integer. *)
Definition two52 : float := 4503599627370496.

(** The largest integer below or equal to [ax], for [0 <= ax < 2^52]:
    adding and removing 2^52 rounds [ax] to the nearest integer, which is
    one too many when it exceeds [ax]. *)
Definition floor_small (ax : float) : float :=
  let n := (ax + two52) - two52 in
  if ax <? n then n - 1 else n.

(** [Math.round(x)]: the nearest integer, ties towards +infinity.  [NaN],
    the infinities and the values from 2^52 on (all integers) are returned
    unchanged, and so are the zeros; a negative [x] that rounds to zero
    gives [-0].  The distance [d] of [|x|] to the integer below is exact. *)
Definition Math_round (x : float) : float :=
  if abs x <? two52 then
    let ax := abs x in
    let f := floor_small ax in
    let d := ax - f in
    if x <? 0 then - (if 0.5 <? d then f + 1 else f)
    else if x =? 0 then x
    else if 0.5 <=? d then f + 1 else f
  else x.

(** The number nearest to the integer [z] (ties to even). *)
Definition number_of_Z (z : Z) : float := SF2Prim (binary_normalize prec emax z 0 false).

(** The number nearest to the rational [n / d], for [n >= 0] and [d > 0]:
    the quotient is taken with at least 55 significant bits and rounded
    once, with the position of the remainder. *)
Definition number_of_ratio (n d : Z) : float :=
  if (n =? 0)%Z then PrimFloat.zero
  else
    let s := Z.max 0 (55 + Z.log2 d - Z.log2 n)%Z in
    let q := (Z.shiftl n s / d)%Z in
    let r := (Z.shiftl n s mod d)%Z in
    let loc := if (r =? 0)%Z then loc_Exact else loc_Inexact (2 * r ?= d)%Z in
    SF2Prim (binary_round_aux prec emax false q (- s) loc).

(** The integer a number denotes, when it denotes one. *)
Definition integer_value (x : float) : option Z :=
  match Prim2SF x with
  | S754_zero _ => Some 0%Z
  | S754_finite sg m e =>
      let mag :=
        if (0 <=? e)%Z then Some (Z.shiftl (Zpos m) e)
        else if (Zpos m mod 2 ^ (- e) =? 0)%Z then Some (Z.shiftr (Zpos m) (- e))
        else None in
      (fun v => if sg then (- v)%Z else v) <$> mag
  | _ => None
  end.

(* ------------------------------------------------------------------ *)
(** ** Strings *)

Local Close Scope float_scope.
Local Open Scope string_scope.

Definition code (c : ascii) : nat := nat_of_ascii c.
Definition between (lo hi : nat) (c : ascii) : bool :=
  (lo <=? code c)%nat && (code c <=? hi)%nat.

Definition is_digit (c : ascii) : bool := between 48 57 c.
Definition is_hex_digit (c : ascii) : bool :=
  between 48 57 c || between 65 70 c || between 97 102 c.

(** White space and line terminators below U+0100: TAB, LF, VT, FF, CR,
    SPACE and NBSP.  This is what [trim], [parseInt], [parseFloat] and the
    regular expression class [\s] skip or match. *)
Definition is_white (c : ascii) : bool :=
  between 9 13 c || (code c =? 32)%nat || (code c =? 160)%nat.

(** [s.toLowerCase()]: the letters A-Z and the Latin-1 capitals. *)
Definition lower_char (c : ascii) : ascii :=
  if between 65 90 c || (between 192 222 c && negb (code c =? 215)%nat)
  then ascii_of_nat (code c + 32) else c.

Fixpoint toLowerCase (s : string) : string :=
  match s with
  | EmptyString => EmptyString
  | String c s' => String (lower_char c) (toLowerCase s')
  end.

Fixpoint trimStart (s : string) : string :=
  match s with
  | String c s' => if is_white c then trimStart s' else s
  | EmptyString => EmptyString
  end.

Definition reverse (s : string) : string :=
  string_of_list_ascii (List.rev (list_ascii_of_string s)).

Definition trimEnd (s : string) : string := reverse (trimStart (reverse s)).

(** [s.trim()] *)
Definition trim (s : string) : string := trimEnd (trimStart s).

(** [s.startsWith(p)] *)
Definition startsWith (p s : string) : bool := String.prefix p s.

(** [s.substring(i, j)] for [i <= j]. *)
Definition substring (i j : nat) (s : string) : string := String.substring i (j - i) s.

(** A string is truthy when it is not empty. *)
Definition truthy (s : string) : bool :=
  match s with EmptyString => false | String _ _ => true end.

(** [s.padStart(target, fill)] *)
Definition padStart (target : nat) (fill s : string) : string :=
  let len := String.length s in
  if (target <=? len)%nat || negb (truthy fill) then s
  else
    let need := (target - len)%nat in
    let pad := List.concat (List.repeat (list_ascii_of_string fill) need) in
    string_of_list_ascii (firstn need pad) ++ s.

(** The value of a digit in a radix up to 36. *)
Definition digit_value (c : ascii) : option Z :=
  if between 48 57 c then Some (Z.of_nat (code c) - 48)%Z
  else if between 97 122 c then Some (Z.of_nat (code c) - 87)%Z
  else if between 65 90 c then Some (Z.of_nat (code c) - 55)%Z
  else None.

Definition radix_digit (radix : Z) (c : ascii) : option Z :=
  match digit_value c with
  | Some d => if (d <? radix)%Z then Some d else None
  | None => None
  end.

(** The longest prefix of radix digits: its value, its length, the rest. *)
Fixpoint read_digits (radix : Z) (s : string) (acc : Z) (n : nat) : Z * nat * string :=
  match s with
  | String c s' =>
      match radix_digit radix c with
      | Some d => read_digits radix s' (acc * radix + d)%Z (S n)
      | None => (acc, n, s)
      end
  | EmptyString => (acc, n, s)
  end.

Definition read_sign (s : string) : bool * string :=
  match s with
  | String "-" s' => (true, s')
  | String "+" s' => (false, s')
  | _ => (false, s)
  end.

Definition signed (neg : bool) (x : float) : float :=
  if neg then PrimFloat.opp x else x.

(** [parseInt(s, radix)] for an explicit radix between 2 and 36: leading
    white space, a sign, a [0x] prefix when the radix is 16, then the
    longest run of digits; [NaN] when that run is empty. *)
Definition parseInt (s : string) (radix : Z) : float :=
  let (neg, s1) := read_sign (trimStart s) in
  let s2 :=
    if (radix =? 16)%Z && (String.prefix "0x" s1 || String.prefix "0X" s1)
    then String.substring 2 (String.length s1 - 2) s1 else s1 in
  let '(v, n, _) := read_digits radix s2 0%Z 0%nat in
  match n with
  | O => nan
  | S _ => signed neg (number_of_Z v)
  end.

(** The value [m * 10^e] of a decimal literal, rounded once.  Exponents
    beyond the range of binary64 are cut off before any power is taken. *)
Definition decimal_value (m e : Z) : float :=
  if (m =? 0)%Z then PrimFloat.zero
  else if (400 <? e)%Z then infinity
  else if (0 <=? e)%Z then number_of_Z (m * 10 ^ e)
  else if (e + Z.log2 m <? -1200)%Z then PrimFloat.zero
  else number_of_ratio m (10 ^ (- e)).

(** The optional exponent part of a decimal literal: [e], a sign, digits. *)
Definition read_exponent (s : string) : Z :=
  match s with
  | String c s' =>
      if (code c =? 101)%nat || (code c =? 69)%nat then
        let (neg, s'') := read_sign s' in
        let '(v, n, _) := read_digits 10 s'' 0%Z 0%nat in
        match n with
        | O => 0%Z
        | S _ => if neg then (- v)%Z else v
        end
      else 0%Z
  | EmptyString => 0%Z
  end.

(** [parseFloat(s)]: leading white space, a sign, then [Infinity] or the
    longest prefix that is a decimal literal; [NaN] when there is none. *)
Definition parseFloat (s : string) : float :=
  let (neg, s1) := read_sign (trimStart s) in
  if String.prefix "Infinity" s1 then signed neg infinity
  else
    let '(ip, ni, s2) := read_digits 10 s1 0%Z 0%nat in
    let '(m, nf, s3) :=
      match s2 with
      | String "." s2' => read_digits 10 s2' ip 0%nat
      | _ => (ip, 0%nat, s2)
      end in
    match (ni + nf)%nat with
    | O => nan
    | S _ => signed neg (decimal_value m (read_exponent s3 - Z.of_nat nf))
    end.

(** The digits of a natural number in radix 16, lower case. *)
Definition hex_char (d : Z) : ascii :=
  if (d <? 10)%Z then ascii_of_nat (Z.to_nat d + 48) else ascii_of_nat (Z.to_nat d + 87).

Fixpoint hex_digits (fuel : nat) (n : Z) (acc : string) : string :=
  match fuel with
  | O => acc
  | S fuel' =>
      let acc' := String (hex_char (n mod 16)) acc in
      if (n <? 16)%Z then acc' else hex_digits fuel' (n / 16) acc'
  end.

Definition Z_toString16 (n : Z) : string :=
  hex_digits (S (Z.to_nat (Z.log2 n))) n EmptyString.

(** [x.toString(16)].  ECMA-262 leaves the digits of a fraction in a radix
    other than 10 to the engine: [fraction] stands for its choice. *)
Definition Number_toString16 (fraction : float -> string) (x : float) : string :=
  if is_nan x then "NaN"
  else if PrimFloat.eqb x infinity then "Infinity"
  else if PrimFloat.eqb x neg_infinity then "-Infinity"
  else match integer_value x with
       | Some z => if (z <? 0)%Z then "-" ++ Z_toString16 (- z) else Z_toString16 z
       | None => fraction x
       end.

(* ------------------------------------------------------------------ *)
(** ** Regular expressions

    The fragment the four patterns of the codec use, matched as the engine
    does: alternatives from left to right, greedy repetition, backtracking,
    numbered capture groups.  All four patterns are anchored at both ends. *)

Inductive regex : Type :=
| Eps
| Chr (c : ascii)
| Class (p : ascii -> bool)
| Cat (r1 r2 : regex)
| Alt (r1 r2 : regex)
| Star (r : regex)
| Group (i : nat) (r : regex).

Definition Opt (r : regex) : regex := Alt r Eps.
Definition Plus (r : regex) : regex := Cat r (Star r).
Fixpoint Rep (n : nat) (r : regex) : regex :=
  match n with O => Eps | S n' => Cat r (Rep n' r) end.
Fixpoint Lit (s : string) : regex :=
  match s with EmptyString => Eps | String c s' => Cat (Chr c) (Lit s') end.
Definition Seq (rs : list regex) : regex := fold_right Cat Eps rs.

Definition captures := list (nat * string).

Fixpoint rmatch (r : regex) (s : list ascii) (cs : captures)
    (k : list ascii -> captures -> option captures) {struct r} : option captures :=
  match r with
  | Eps => k s cs
  | Chr c =>
      match s with
      | x :: s' => if Ascii.eqb x c then k s' cs else None
      | [] => None
      end
  | Class p =>
      match s with
      | x :: s' => if p x then k s' cs else None
      | [] => None
      end
  | Cat r1 r2 => rmatch r1 s cs (fun s' cs' => rmatch r2 s' cs' k)
  | Alt r1 r2 =>
      match rmatch r1 s cs k with
      | Some res => Some res
      | None => rmatch r2 s cs k
      end
  | Star r1 =>
      (fix star (fuel : nat) (s : list ascii) (cs : captures) {struct fuel} :=
         match fuel with
         | O => k s cs
         | S fuel' =>
             match rmatch r1 s cs
                     (fun s' cs' =>
                        if (List.length s' <? List.length s)%nat
                        then star fuel' s' cs' else None) with
             | Some res => Some res
             | None => k s cs
             end
         end) (List.length s) s cs
  | Group i r1 =>
      rmatch r1 s cs
        (fun s' cs' =>
           let taken := firstn (List.length s - List.length s') s in
           k s' ((i, string_of_list_ascii taken) :: cs'))
  end.

(** [s.match(/^r$/)]: the capture groups of a match of the whole string. *)
Definition match_whole (r : regex) (s : string) : option captures :=
  rmatch r (list_ascii_of_string s) []
    (fun rest cs => match rest with [] => Some cs | _ :: _ => None end).

(** [/^r$/.test(s)] *)
Definition test (r : regex) (s : string) : bool :=
  match match_whole r s with Some _ => true | None => false end.

(** [m[i]]: the text of group [i], or [undefined]. *)
Fixpoint group (i : nat) (cs : captures) : option string :=
  match cs with
  | [] => None
  | (j, t) :: cs' => if (i =? j)%nat then Some t else group i cs'
  end.

(* ------------------------------------------------------------------ *)
(** ** Numbers as decimal text

    [String(x)] follows Number::toString of ECMA-262 for radix 10: the
    shortest digits that read back as [x], laid out plainly for decimal
    exponents from -5 to 21 and with an exponent otherwise.  Where the
    standard leaves the last digit open, the digits nearest to [x] are
    taken, as its note recommends and the engines do. *)

(** The decimal digits of a natural number. *)
Fixpoint dec_digits (fuel : nat) (n : Z) (acc : string) : string :=
  match fuel with
  | O => acc
  | S fuel' =>
      let acc' := String (hex_char (n mod 10)) acc in
      if (n <? 10)%Z then acc' else dec_digits fuel' (n / 10) acc'
  end.

Definition Z_toString (n : Z) : string :=
  dec_digits (S (Z.to_nat (Z.log2 n))) n EmptyString.

Definition zeros (n : Z) : string :=
  string_of_list_ascii (List.repeat "0"%char (Z.to_nat n)).

(** The magnitude of a finite non-zero number as a fraction [num / den]. *)
Definition fraction_of (m : positive) (e : Z) : Z * Z :=
  if (0 <=? e)%Z then (Z.shiftl (Zpos m) e, 1%Z) else (Zpos m, Z.shiftl 1 (- e)).

(** The least [j >= 0] with [num * 10^j >= den]. *)
Fixpoint scale_up (fuel : nat) (num den j : Z) : Z :=
  match fuel with
  | O => j
  | S fuel' => if (den <=? num)%Z then j else scale_up fuel' (num * 10) den (j + 1)
  end.

(** The [n] with [10^(n-1) <= num / den < 10^n]. *)
Definition decimal_exponent (num den : Z) : Z :=
  if (den <=? num)%Z then Z.of_nat (String.length (Z_toString (num / den)))
  else (1 - scale_up 400 num den 0)%Z.

(** [num / den * 10^p], as a fraction. *)
Definition scaled (num den p : Z) : Z * Z :=
  if (0 <=? p)%Z then (num * 10 ^ p, den)%Z else (num, den * 10 ^ (- p))%Z.

(** The digits of [x > 0]: the least [k] for which some [s] of [k] digits
    has [s * 10^(n-k)] read back as [x], and of two such [s] the one
    nearer to [x] (the even one on a tie).  The result is [(s, n)]. *)
Fixpoint shortest (fuel : nat) (x : float) (num den n0 k : Z) : Z * Z :=
  match fuel with
  | O => (0, n0)%Z
  | S fuel' =>
      let '(sn, sd) := scaled num den (k - n0) in
      let lo := (sn / sd)%Z in
      let rest := (sn mod sd)%Z in
      let hi := (lo + 1)%Z in
      let ok_lo := PrimFloat.Leibniz.eqb (decimal_value lo (n0 - k)) x in
      let ok_hi := PrimFloat.Leibniz.eqb (decimal_value hi (n0 - k)) x in
      let use_hi := if (hi =? 10 ^ k)%Z then (10 ^ (k - 1), n0 + 1)%Z else (hi, n0) in
      if ok_lo && ok_hi then
        match (2 * rest ?= sd)%Z with
        | Lt => (lo, n0)
        | Gt => use_hi
        | Eq => if Z.even lo then (lo, n0) else use_hi
        end
      else if ok_lo then (lo, n0)
      else if ok_hi then use_hi
      else shortest fuel' x num den n0 (k + 1)
  end.

(** The layout of the digits [s] with decimal exponent [n]. *)
Definition layout (s n : Z) : string :=
  let digits := Z_toString s in
  let k := Z.of_nat (String.length digits) in
  if (-5 <=? n)%Z && (n <=? 21)%Z then
    if (k <=? n)%Z then digits ++ zeros (n - k)
    else if (0 <? n)%Z then
      String.substring 0 (Z.to_nat n) digits ++ "."
      ++ String.substring (Z.to_nat n) (Z.to_nat (k - n)) digits
    else "0." ++ zeros (- n) ++ digits
  else
    let e := (n - 1)%Z in
    let exponent := (if (e <? 0)%Z then "-" else "+") ++ Z_toString (Z.abs e) in
    if (k =? 1)%Z then digits ++ "e" ++ exponent
    else String.substring 0 1 digits ++ "."
         ++ String.substring 1 (Z.to_nat (k - 1)) digits ++ "e" ++ exponent.

(** [String(x)], which is [x.toString()] and what a template literal
    inserts. *)
Definition Number_toString (x : float) : string :=
  match Prim2SF x with
  | S754_nan => "NaN"
  | S754_zero _ => "0"
  | S754_infinity sg => if sg then "-Infinity" else "Infinity"
  | S754_finite sg m e =>
      let '(num, den) := fraction_of m e in
      let n0 := decimal_exponent num den in
      let '(s, n) := shortest 17 (abs x) num den n0 1 in
      (if sg then "-" else "") ++ layout s n
  end.

(** [x.toFixed(f)] *)
Definition toFixed (f : nat) (x : float) : string :=
  match Prim2SF x with
  | S754_nan | S754_infinity _ => Number_toString x
  | S754_zero _ =>
      if (f =? 0)%nat then "0" else "0." ++ zeros (Z.of_nat f)
  | S754_finite sg m e =>
      let '(num, den) := fraction_of m e in
      if (10 ^ 21 * den <=? num)%Z then Number_toString x
      else
        let n := ((2 * num * 10 ^ Z.of_nat f + den) / (2 * den))%Z in
        let digits := Z_toString n in
        let k := String.length digits in
        let padded := if (k <=? f)%nat then zeros (Z.of_nat (f + 1 - k)) ++ digits else digits in
        let k := String.length padded in
        let text :=
          if (f =? 0)%nat then padded
          else String.substring 0 (k - f) padded ++ "."
               ++ String.substring (k - f) f padded in
        (if sg then "-" else "") ++ text
  end.

End JS.

(* ================================================================== *)
(** * The data model ([types.ts]) *)
(* ================================================================== *)

(** [RgbColor], [HsvColor] and [OklchColor] all have fields of type
    [number]; each record lives in a module of its own so that the field
    names of the source can be kept. *)
Module Rgb.
Record t : Type := mk { r : float; g : float; b : float; a : float }.
End Rgb.

Module Hsv.
Record t : Type := mk { h : float; s : float; v : float; a : float }.
End Hsv.

Module Oklch.
Record t : Type := mk { l : float; c : float; h : float; a : float }.
End Oklch.

Abbreviation RgbColor := Rgb.t.
Abbreviation HsvColor := Hsv.t.
Abbreviation OklchColor := Oklch.t.
Abbreviation HexColor := string.

Record ColorValue : Type := mkColorValue {
  hex : HexColor;
  rgb : RgbColor;
  hsv : HsvColor;
  oklch : OklchColor
}.

(** [Partial<HsvColor>]: a field is [None] when the object does not have
    it (the callers never pass a field holding [undefined]). *)
Module HsvUpdate.
Record t : Type := mk {
  h : option float; s : option float; v : option float; a : option float
}.
End HsvUpdate.

(** What [parseToRgb] and [parseColor] accept: the members of their union
    type, and [InOther] for an object with none of the property names the
    codec looks for (such as [{x: 1}], which the test suite passes). *)
Inductive ColorInput : Type :=
| InString (s : string)
| InRgb (c : RgbColor)
| InHsv (c : HsvColor)
| InOklch (c : OklchColor)
| InValue (c : ColorValue)
| InOther.

(** [typeof color === "string"], [typeof color === "object"] *)
Definition is_string (color : ColorInput) : bool :=
  match color with InString _ => true | _ => false end.
Definition is_object (color : ColorInput) : bool := negb (is_string color).

(** [name in color], for an object. *)
Definition has_property (name : string) (color : ColorInput) : bool :=
  match color with
  | InString _ => false
  | InRgb _ => bool_decide (name ∈ ["r"; "g"; "b"; "a"]%string)
  | InHsv _ => bool_decide (name ∈ ["h"; "s"; "v"; "a"]%string)
  | InOklch _ => bool_decide (name ∈ ["l"; "c"; "h"; "a"]%string)
  | InValue _ => bool_decide (name ∈ ["hex"; "rgb"; "hsv"; "oklch"]%string)
  | InOther => false
  end.

(** The formats [isValidColor] and [formatColor] name. *)
Inductive ColorFormat : Type :=
| FormatHex | FormatRgb | FormatHsv | FormatOklch | FormatNamedColor.

(** What the engine supplies and the language leaves open. *)
Record Platform : Type := {
  (** [Math.pow], [Math.cbrt], [Math.atan2], [Math.cos], [Math.sin]:
      implementation-approximated in ECMA-262. *)
  Math_pow : float -> float -> float;
  Math_cbrt : float -> float;
  Math_atan2 : float -> float -> float;
  Math_cos : float -> float;
  Math_sin : float -> float;
  (** the digits of a fraction printed in radix 16 *)
  fraction16 : float -> string;
  (** [document.createElement("canvas").getContext("2d")], seen as the
      function from the text assigned to [fillStyle] to the text read back;
      [None] when there is no [document] or no 2D context. *)
  canvas_fillStyle : option (string -> string)
}.

(** [Math.PI] *)
Definition Math_PI : float := 3.141592653589793%float.

(** [Math.sqrt]: the correctly rounded square root. *)
Definition Math_sqrt (x : float) : float := PrimFloat.sqrt x.

(* ================================================================== *)
(** * The colour codec ([color.utils.ts]) *)
(* ================================================================== *)

Section Codec.

Variable env : Platform.

Import JS.

Definition hexdigit : regex := Class is_hex_digit.
Definition digits : regex := Plus (Class is_digit).
Definition number : regex := Plus (Class (fun c => is_digit c || Ascii.eqb c ".")).
Definition ws : regex := Star (Class is_white).
Definition ws1 : regex := Plus (Class is_white).

(** [HEX_REGEX], with its tokens spaced out:
    [^ # ( [A-Fa-f0-9]{8} | [A-Fa-f0-9]{6} | [A-Fa-f0-9]{4} | [A-Fa-f0-9]{3} ) $] *)
Definition HEX_REGEX : regex :=
  Cat (Chr "#")
      (Group 1 (Alt (Rep 8 hexdigit) (Alt (Rep 6 hexdigit)
               (Alt (Rep 4 hexdigit) (Rep 3 hexdigit))))).

(** [RGB_REGEX], with its tokens spaced out:
    [^ rgb a? \( \s* (\d+) \s* , \s* (\d+) \s* , \s* (\d+) \s*
       (?: , \s* ([\d.]+) \s* )? \) $] *)
Definition RGB_REGEX : regex :=
  Seq [Lit "rgb"; Opt (Chr "a"); Chr "("; ws; Group 1 digits; ws; Chr ","; ws;
       Group 2 digits; ws; Chr ","; ws; Group 3 digits; ws;
       Opt (Seq [Chr ","; ws; Group 4 number; ws]); Chr ")"].

(** [HSV_REGEX], with its tokens spaced out:
    [^ hsv a? \( \s* ([\d.]+) \s* , \s* ([\d.]+) %? \s* , \s* ([\d.]+) %? \s*
       (?: , \s* ([\d.]+) \s* )? \) $] *)
Definition HSV_REGEX : regex :=
  Seq [Lit "hsv"; Opt (Chr "a"); Chr "("; ws; Group 1 number; ws; Chr ","; ws;
       Group 2 number; Opt (Chr "%"); ws; Chr ","; ws;
       Group 3 number; Opt (Chr "%"); ws;
       Opt (Seq [Chr ","; ws; Group 4 number; ws]); Chr ")"].

(** [OKLCH_REGEX], with its tokens spaced out:
    [^ oklch \( \s* ([\d.]+) \s+ ([\d.]+) \s+ ([\d.]+) \s*
       (?: \/ \s* ([\d.]+) \s* )? \) $] *)
Definition OKLCH_REGEX : regex :=
  Seq [Lit "oklch"; Chr "("; ws; Group 1 number; ws1; Group 2 number; ws1;
       Group 3 number; ws;
       Opt (Seq [Chr "/"; ws; Group 4 number; ws]); Chr ")"].

Definition isHexColorValid (hex : HexColor) : bool := test HEX_REGEX hex.

(** The canvas answers the same text for the same name, so the
    [colorNameCache] in front of it does not change what is returned. *)
Definition colorNameToHex (colorName : string) : option HexColor :=
  match canvas_fillStyle env with
  | None => None
  | Some fillStyle => Some (fillStyle (trim (toLowerCase colorName)))
  end.

Local Open Scope float_scope.

Definition sRgbToLinear (c : float) : float :=
  let v := c / 255 in
  if v <=? 0.04045 then v / 12.92 else Math_pow env ((v + 0.055) / 1.055) 2.4.

Definition linearToSRgb (c : float) : float :=
  let v := if c <=? 0.0031308 then 12.92 * c
           else 1.055 * Math_pow env c (1 / 2.4) - 0.055 in
  Math_max 0 (Math_min 255 (Math_round (v * 255))).

(** [s[i]] doubled, as in [parseInt(r + r, 16)]. *)
Definition twice (c : ascii) : string := String c (String c EmptyString).

(** [hexToRgb] on a string that passed [isHexColorValid]. *)
Definition hexToRgb_valid (hex : HexColor) : option RgbColor :=
  let len := String.length hex in
  if negb (startsWith "#" hex) then None
  else if (len =? 4)%nat || (len =? 5)%nat then
    match String.get 1 hex, String.get 2 hex, String.get 3 hex with
    | Some r, Some g, Some b =>
        Some (Rgb.mk (parseInt (twice r) 16) (parseInt (twice g) 16)
                     (parseInt (twice b) 16)
                     match String.get 4 hex with
                     | Some a => parseInt (twice a) 16 / 255
                     | None => 1
                     end)
    | _, _, _ => None
    end
  else if (len =? 7)%nat || (len =? 9)%nat then
    Some (Rgb.mk (parseInt (substring 1 3 hex) 16) (parseInt (substring 3 5 hex) 16)
                 (parseInt (substring 5 7 hex) 16)
                 (if (len =? 9)%nat then parseInt (substring 7 9 hex) 16 / 255 else 1))
  else None.

(** When the string is not a hex colour the source resolves it as a colour
    name and calls itself on the answer, which is then valid: the inner
    call is [hexToRgb_valid]. *)
Definition hexToRgb (hex : HexColor) : option RgbColor :=
  if isHexColorValid hex then hexToRgb_valid hex
  else match colorNameToHex hex with
       | Some colorHex =>
           if truthy colorHex && isHexColorValid colorHex
           then hexToRgb_valid colorHex else None
       | None => None
       end.

Definition hsvToRgb (hsv : HsvColor) : RgbColor :=
  let h := rem (Hsv.h hsv) 360 in
  let h := if h <? 0 then h + 360 else h in
  let s := Hsv.s hsv in
  let v := Hsv.v hsv in
  let c := v * s in
  let x := c * (1 - Math_abs (rem (h / 60) 2 - 1)) in
  let m := v - c in
  let '(rP, gP, bP) :=
    if geb h 0 && (h <? 60) then (c, x, 0)
    else if geb h 60 && (h <? 120) then (x, c, 0)
    else if geb h 120 && (h <? 180) then (0, c, x)
    else if geb h 180 && (h <? 240) then (0, x, c)
    else if geb h 240 && (h <? 300) then (x, 0, c)
    else if geb h 300 && (h <? 360) then (c, 0, x)
    else (0, 0, 0) in
  Rgb.mk (Math_round ((rP + m) * 255))
         (Math_round ((gP + m) * 255))
         (Math_round ((bP + m) * 255))
         (Hsv.a hsv).

Definition oklchToRgb (oklch : OklchColor) : RgbColor :=
  let L := Oklch.l oklch in
  let C := Oklch.c oklch in
  let H := Oklch.h oklch in
  let hRad := H * (Math_PI / 180) in
  let a_ := Math_cos env hRad * C in
  let b_ := Math_sin env hRad * C in
  let l_cube := L + 0.3963377774 * a_ + 0.2158037573 * b_ in
  let m_cube := L - 0.1055613458 * a_ - 0.0638541728 * b_ in
  let s_cube := L - 0.0894841775 * a_ - 1.291485548 * b_ in
  let l_ := l_cube * l_cube * l_cube in
  let m_ := m_cube * m_cube * m_cube in
  let s_ := s_cube * s_cube * s_cube in
  let r := 4.0767416621 * l_ - 3.3077115913 * m_ + 0.2309699292 * s_ in
  let g := -1.2684380046 * l_ + 2.6097574011 * m_ - 0.3413193965 * s_ in
  let b := -0.0041960863 * l_ - 0.7034186147 * m_ + 1.707614701 * s_ in
  Rgb.mk (linearToSRgb r) (linearToSRgb g) (linearToSRgb b) (Oklch.a oklch).

Definition toString16 (x : float) : string := Number_toString16 (fraction16 env) x.

Definition rgbToHex (rgb : RgbColor) : HexColor :=
  let redHex := padStart 2 "0" (toString16 (Rgb.r rgb)) in
  let greenHex := padStart 2 "0" (toString16 (Rgb.g rgb)) in
  let blueHex := padStart 2 "0" (toString16 (Rgb.b rgb)) in
  let alphaHex :=
    if Rgb.a rgb <? 1
    then padStart 2 "0" (toString16 (Math_round (Rgb.a rgb * 255)))
    else ""%string in
  ("#" ++ redHex ++ greenHex ++ blueHex ++ alphaHex)%string.

Definition rgbToHsv (rgb : RgbColor) : HsvColor :=
  let rNorm := Rgb.r rgb / 255 in
  let gNorm := Rgb.g rgb / 255 in
  let bNorm := Rgb.b rgb / 255 in
  let max := Math_max3 rNorm gNorm bNorm in
  let min := Math_min3 rNorm gNorm bNorm in
  let delta := max - min in
  let h :=
    if strict_ne delta 0 then
      let h :=
        if strict_eq max rNorm then rem ((gNorm - bNorm) / delta) 6
        else if strict_eq max gNorm then (bNorm - rNorm) / delta + 2
        else (rNorm - gNorm) / delta + 4 in
      let h := h * 60 in
      if h <? 0 then h + 360 else h
    else 0 in
  let s := if strict_eq max 0 then 0 else delta / max in
  let v := max in
  Hsv.mk h s v (Rgb.a rgb).

Definition rgbToOklch (rgb : RgbColor) : OklchColor :=
  let r := sRgbToLinear (Rgb.r rgb) in
  let g := sRgbToLinear (Rgb.g rgb) in
  let b := sRgbToLinear (Rgb.b rgb) in
  let l_ := 0.4122214708 * r + 0.5363325363 * g + 0.0514459929 * b in
  let m_ := 0.2119034982 * r + 0.6806995451 * g + 0.1073969566 * b in
  let s_ := 0.0883024619 * r + 0.2817188376 * g + 0.6299787005 * b in
  let l_cube := Math_cbrt env l_ in
  let m_cube := Math_cbrt env m_ in
  let s_cube := Math_cbrt env s_ in
  let L := 0.2104542553 * l_cube + 0.793617785 * m_cube - 0.0040720401 * s_cube in
  let a := 1.9779984951 * l_cube - 2.428592205 * m_cube + 0.4505937099 * s_cube in
  let b_ := 0.0259040371 * l_cube + 0.7827717662 * m_cube - 0.808675766 * s_cube in
  let C := Math_sqrt (a * a + b_ * b_) in
  let h := Math_atan2 env b_ a * (180 / Math_PI) in
  let h := if h <? 0 then h + 360 else h in
  Oklch.mk L C h (Rgb.a rgb).

(** The object seen at one of the types of the union ([color as RgbColor]
    and the like).  Each is used only behind the [in] checks that make it
    succeed. *)
Definition as_value (color : ColorInput) : option ColorValue :=
  match color with InValue c => Some c | _ => None end.
Definition as_rgb (color : ColorInput) : option RgbColor :=
  match color with InRgb c => Some c | _ => None end.
Definition as_hsv (color : ColorInput) : option HsvColor :=
  match color with InHsv c => Some c | _ => None end.
Definition as_oklch (color : ColorInput) : option OklchColor :=
  match color with InOklch c => Some c | _ => None end.

(** [m[4] ? parseFloat(m[4]) : 1] *)
Definition alpha_group (m : captures) : float :=
  match group 4 m with
  | Some t => if truthy t then parseFloat t else 1
  | None => 1
  end.

(** [m[i]!] *)
Definition group_text (i : nat) (m : captures) : string := default EmptyString (group i m).

Definition parseToRgb_string (color : string) : option RgbColor :=
  if negb (truthy color) then None
  else
    let trimmed := toLowerCase (trim color) in
    match hexToRgb trimmed with
    | Some hexResult => Some hexResult
    | None =>
    match match_whole RGB_REGEX trimmed with
    | Some rgbMatch =>
        Some (Rgb.mk (parseInt (group_text 1 rgbMatch) 10)
                     (parseInt (group_text 2 rgbMatch) 10)
                     (parseInt (group_text 3 rgbMatch) 10)
                     (alpha_group rgbMatch))
    | None =>
    match match_whole HSV_REGEX trimmed with
    | Some hsvMatch =>
        Some (hsvToRgb (Hsv.mk (parseFloat (group_text 1 hsvMatch))
                               (parseFloat (group_text 2 hsvMatch) / 100)
                               (parseFloat (group_text 3 hsvMatch) / 100)
                               (alpha_group hsvMatch)))
    | None =>
    match match_whole OKLCH_REGEX trimmed with
    | Some oklchMatch =>
        Some (oklchToRgb (Oklch.mk (parseFloat (group_text 1 oklchMatch))
                                   (parseFloat (group_text 2 oklchMatch))
                                   (parseFloat (group_text 3 oklchMatch))
                                   (alpha_group oklchMatch)))
    | None =>
    match colorNameToHex trimmed with
    | Some colorToHex => if truthy colorToHex then hexToRgb colorToHex else None
    | None => None
    end end end end end.

Definition parseToRgb (color : ColorInput) : option RgbColor :=
  match color with
  | InString s => parseToRgb_string s
  | _ =>
      if has_property "rgb" color then rgb <$> as_value color
      else if has_property "r" color && has_property "g" color && has_property "b" color
      then as_rgb color
      else if has_property "h" color && has_property "s" color && has_property "v" color
      then hsvToRgb <$> as_hsv color
      else if has_property "l" color && has_property "c" color && has_property "h" color
      then oklchToRgb <$> as_oklch color
      else None
  end.

(** The [ColorValue] that [parseColor] builds around an [RgbColor]. *)
Definition colorValueOf (rgb : RgbColor) : ColorValue :=
  {| hex := rgbToHex rgb; rgb := rgb; hsv := rgbToHsv rgb; oklch := rgbToOklch rgb |}.

Definition opaque_black : RgbColor := Rgb.mk 0 0 0 1.

(** [cacheKey]: the normalised text of a string, the hex form of an object
    with [r], [g] and [b], and [null] otherwise. *)
Definition cacheKeyOf (color : ColorInput) : option string :=
  match color with
  | InString s => Some (trim (toLowerCase s))
  | _ =>
      if has_property "r" color && has_property "g" color && has_property "b" color
      then rgbToHex <$> as_rgb color
      else None
  end.

(** [parseColor], with the module-level [parsedColorCache] passed in and
    out.  A hit on [cacheKey] returns the stored value; otherwise the value
    is built and stored under [cacheKey] (when that is a non-empty string)
    and under its own [hex]. *)
Definition parseColor (cache : gmap string ColorValue) (color : ColorInput)
    : ColorValue * gmap string ColorValue :=
  match (if is_object color && has_property "hex" color && has_property "rgb" color
         then as_value color else None) with
  | Some value => (value, cache)
  | None =>
      let cacheKey := cacheKeyOf color in
      match cacheKey ≫= (fun key => cache !! key) with
      | Some cached => (cached, cache)
      | None =>
          let rgb := default opaque_black (parseToRgb color) in
          let result := colorValueOf rgb in
          let cache1 :=
            match cacheKey with
            | Some key => if truthy key then <[key := result]> cache else cache
            | None => cache
            end in
          (result, <[hex result := result]> cache1)
      end
  end.

End Codec.

Section CodecText.

Variable env : Platform.

Import JS.

Local Open Scope string_scope.

(** [isValidColor(value, format?)] *)
Definition isValidColor (value : string) (format : option ColorFormat) : bool :=
  let v := toLowerCase (trim value) in
  let named := match colorNameToHex env v with Some _ => true | None => false end in
  match format with
  | None =>
      test HEX_REGEX v || test RGB_REGEX v || test HSV_REGEX v
      || test OKLCH_REGEX v || named
  | Some FormatHex => test HEX_REGEX v
  | Some FormatRgb => test RGB_REGEX v
  | Some FormatHsv => test HSV_REGEX v
  | Some FormatOklch => test OKLCH_REGEX v
  | Some FormatNamedColor => named
  end.

(** [formatColor(color, format)]; a format other than [rgb], [hsv] and
    [oklch] gives the hex text. *)
Definition formatColor (color : ColorValue) (format : ColorFormat) : string :=
  let str := Number_toString in
  match format with
  | FormatRgb =>
      let r := Rgb.r (rgb color) in
      let g := Rgb.g (rgb color) in
      let b := Rgb.b (rgb color) in
      let a := Rgb.a (rgb color) in
      if PrimFloat.ltb a 1
      then "rgba(" ++ str r ++ ", " ++ str g ++ ", " ++ str b ++ ", " ++ str a ++ ")"
      else "rgb(" ++ str r ++ ", " ++ str g ++ ", " ++ str b ++ ")"
  | FormatHsv =>
      let h := Hsv.h (hsv color) in
      let s := Hsv.s (hsv color) in
      let v := Hsv.v (hsv color) in
      let a := Hsv.a (hsv color) in
      let h_ := Math_round h in
      let s_ := Math_round (s * 100)%float in
      let v_ := Math_round (v * 100)%float in
      if PrimFloat.ltb a 1
      then "hsva(" ++ str h_ ++ ", " ++ str s_ ++ "%, " ++ str v_ ++ "%, " ++ str a ++ ")"
      else "hsv(" ++ str h_ ++ ", " ++ str s_ ++ "%, " ++ str v_ ++ "%)"
  | FormatOklch =>
      let l := Oklch.l (oklch color) in
      let c := Oklch.c (oklch color) in
      let h := Oklch.h (oklch color) in
      let a := Oklch.a (oklch color) in
      let l_ := toFixed 3 l in
      let c_ := toFixed 3 c in
      let h_ := Math_round h in
      if PrimFloat.ltb a 1
      then "oklch(" ++ l_ ++ " " ++ c_ ++ " " ++ str h_ ++ " / " ++ str a ++ ")"
      else "oklch(" ++ l_ ++ " " ++ c_ ++ " " ++ str h_ ++ ")"
  | _ => hex color
  end.

End CodecText.

(** An earlier revision of the codec is kept in the repository (behind
    [ColorPickerIndicator.vue]); its [rgbToHex] treats alpha differently. *)
Module Legacy.
Section Codec.

Variable env : Platform.

Definition rgbToHex (rgb : RgbColor) : HexColor :=
  if JS.strict_eq (Rgb.a rgb) 0 then "#00000000"%string
  else
    let redHex := JS.padStart 2 "0" (toString16 env (Rgb.r rgb)) in
    let greenHex := JS.padStart 2 "0" (toString16 env (Rgb.g rgb)) in
    let blueHex := JS.padStart 2 "0" (toString16 env (Rgb.b rgb)) in
    ("#" ++ redHex ++ greenHex ++ blueHex)%string.

Local Open Scope float_scope.

(** The earlier [colorNameToHex]: the name goes to the canvas as it is. *)
Definition colorNameToHex (colorName : string) : option HexColor :=
  match canvas_fillStyle env with
  | None => None
  | Some fillStyle => Some (fillStyle colorName)
  end.

(** The earlier [hexToRgb]; the [throw] of its short form is behind
    [isHexColorValid] and is never reached. *)
Definition hexToRgb (hex : HexColor) : option RgbColor :=
  if isHexColorValid hex then hexToRgb_valid hex
  else match colorNameToHex hex with
       | Some colorHex =>
           if JS.truthy colorHex && isHexColorValid colorHex
           then hexToRgb_valid colorHex else None
       | None => None
       end.

(** The earlier [hsvToRgb]: the hue is used as it comes. *)
Definition hsvToRgb (hsv : HsvColor) : RgbColor :=
  let h := Hsv.h hsv in
  let s := Hsv.s hsv in
  let v := Hsv.v hsv in
  let c := v * s in
  let x := c * (1 - JS.Math_abs (JS.rem (h / 60) 2 - 1)) in
  let m := v - c in
  let '(rPrime, gPrime, bPrime) :=
    if JS.geb h 0 && (h <? 60) then (c, x, 0)
    else if JS.geb h 60 && (h <? 120) then (x, c, 0)
    else if JS.geb h 120 && (h <? 180) then (0, c, x)
    else if JS.geb h 180 && (h <? 240) then (0, x, c)
    else if JS.geb h 240 && (h <? 300) then (x, 0, c)
    else if JS.geb h 300 && (h <? 360) then (c, 0, x)
    else (0, 0, 0) in
  Rgb.mk (JS.Math_round ((rPrime + m) * 255))
         (JS.Math_round ((gPrime + m) * 255))
         (JS.Math_round ((bPrime + m) * 255))
         (Hsv.a hsv).

Definition hsvToHex (hsv : HsvColor) : HexColor := rgbToHex (hsvToRgb hsv).

(** The earlier [parseColor]: no cache and no fallback; the part of the
    input that was given is kept as it is. *)
Definition parseColor (color : ColorInput) : option ColorValue :=
  match color with
  | InString s =>
      match hexToRgb s with
      | None => None
      | Some rgb =>
          Some {| hex := s; rgb := rgb; hsv := rgbToHsv rgb; oklch := rgbToOklch env rgb |}
      end
  | _ =>
      if has_property "r" color && has_property "g" color && has_property "b" color
      then (fun rgb => {| hex := rgbToHex rgb; rgb := rgb;
                          hsv := rgbToHsv rgb; oklch := rgbToOklch env rgb |})
             <$> as_rgb color
      else if has_property "h" color && has_property "s" color && has_property "v" color
      then (fun hsv => let rgb := hsvToRgb hsv in
                       {| hex := rgbToHex rgb; rgb := rgb;
                          hsv := hsv; oklch := rgbToOklch env rgb |})
             <$> as_hsv color
      else if has_property "l" color && has_property "c" color && has_property "h" color
      then (fun oklch => let rgb := oklchToRgb env oklch in
                         {| hex := rgbToHex rgb; rgb := rgb;
                            hsv := rgbToHsv rgb; oklch := oklch |})
             <$> as_oklch color
      else None
  end.

End Codec.
End Legacy.

(* ================================================================== *)
(** * The picker ([ColorPickerRoot.vue]) *)
(* ================================================================== *)

(** The component's reactive state, the module-level cache it parses
    through, and what the scheduler holds for the end of the tick: the
    [watch] on the model value, queued by every write to it, and the
    [nextTick] callback that clears [isInternalUpdate]. *)
Record Picker : Type := mkPicker {
  color : ColorValue;
  hsvRef : HsvColor;
  previewColorRef : ColorValue;
  isInternalUpdate : bool;
  watcherQueued : bool;
  resetQueued : bool;
  parsedColorCache : gmap string ColorValue
}.

Section PickerOps.

Variable env : Platform.

Local Open Scope float_scope.

(** [{ ...hsvRef.value, ...hsvUpdate }] *)
Definition spread (base : HsvColor) (hsvUpdate : HsvUpdate.t) : HsvColor :=
  Hsv.mk (default (Hsv.h base) (HsvUpdate.h hsvUpdate))
         (default (Hsv.s base) (HsvUpdate.s hsvUpdate))
         (default (Hsv.v base) (HsvUpdate.v hsvUpdate))
         (default (Hsv.a base) (HsvUpdate.a hsvUpdate)).

(** [Math.max(0, Math.min(360, Math.round(h)))] *)
Definition clampHue (h : float) : float :=
  let hInt := JS.Math_round h in
  JS.Math_max 0 (JS.Math_min 360 hInt).

(** The script's set-up: [hsvRef] starts as the model's [hsv], the preview
    as [parseColor({ ...color.value.hsv, s: 1, v: 1 })]. *)
Definition setup (cache : gmap string ColorValue) (initial : ColorValue) : Picker :=
  let base := hsv initial in
  let '(preview, cache') :=
    parseColor env cache (InHsv (Hsv.mk (Hsv.h base) 1 1 (Hsv.a base))) in
  {| color := initial; hsvRef := base; previewColorRef := preview;
     isInternalUpdate := false; watcherQueued := false; resetQueued := false;
     parsedColorCache := cache' |}.

(** [updateHsv], exposed as [setHsv]: the synchronous part.  ([emit] only
    notifies the parent and is left out.) *)
Definition updateHsv (hsvUpdate : HsvUpdate.t) (st : Picker) : Picker :=
  let merged := spread (hsvRef st) hsvUpdate in
  let newHsv :=
    match HsvUpdate.h hsvUpdate with
    | Some h => Hsv.mk (clampHue h) (Hsv.s merged) (Hsv.v merged) (Hsv.a merged)
    | None => merged
    end in
  let '(newColor, cache1) := parseColor env (parsedColorCache st) (InHsv newHsv) in
  let '(preview, cache2) :=
    match HsvUpdate.h hsvUpdate with
    | Some h => parseColor env cache1 (InHsv (Hsv.mk h 1 1 1))
    | None => (previewColorRef st, cache1)
    end in
  {| color := newColor; hsvRef := newHsv; previewColorRef := preview;
     isInternalUpdate := true; watcherQueued := true; resetQueued := true;
     parsedColorCache := cache2 |}.

(** The callback of [watch(() => color.value, ...)]. *)
Definition watchColor (newVal : ColorValue) (st : Picker) : Picker :=
  if isInternalUpdate st then st
  else
    let incomingHsv := hsv newVal in
    let tracked :=
      if JS.gtb (Hsv.v incomingHsv) 0 && JS.gtb (Hsv.s incomingHsv) 0
      then incomingHsv
      else Hsv.mk (Hsv.h (hsvRef st)) (Hsv.s (hsvRef st))
                  (Hsv.v incomingHsv) (Hsv.a incomingHsv) in
    {| color := color st; hsvRef := tracked; previewColorRef := previewColorRef st;
       isInternalUpdate := isInternalUpdate st; watcherQueued := watcherQueued st;
       resetQueued := resetQueued st; parsedColorCache := parsedColorCache st |}.

Definition setColor (newColor : ColorValue) (st : Picker) : Picker :=
  {| color := newColor; hsvRef := hsv newColor; previewColorRef := previewColorRef st;
     isInternalUpdate := isInternalUpdate st; watcherQueued := true;
     resetQueued := resetQueued st; parsedColorCache := parsedColorCache st |}.

Definition setPreviewColor (newColor : ColorValue) (st : Picker) : Picker :=
  {| color := color st; hsvRef := hsvRef st; previewColorRef := newColor;
     isInternalUpdate := isInternalUpdate st; watcherQueued := watcherQueued st;
     resetQueued := resetQueued st; parsedColorCache := parsedColorCache st |}.

(** The parent replaces the model ([v-model]) by another object than the
    one it holds: the watcher is queued. *)
Definition writeModel (newColor : ColorValue) (st : Picker) : Picker :=
  {| color := newColor; hsvRef := hsvRef st; previewColorRef := previewColorRef st;
     isInternalUpdate := isInternalUpdate st; watcherQueued := true;
     resetQueued := resetQueued st; parsedColorCache := parsedColorCache st |}.

(** What the parent assigns to the model: the object the model holds
    already, or another one. *)
Inductive Assigned : Type :=
| SameObject
| OtherObject (newColor : ColorValue).

(** An assignment to the model.  The setter of a ref compares the new value
    with the old by [Object.is] and triggers nothing when they are one
    object: no watcher is queued, whatever the object holds. *)
Definition assignModel (a : Assigned) (st : Picker) : Picker :=
  match a with
  | SameObject => st
  | OtherObject newColor => writeModel newColor st
  end.

(** The end of a tick: the queued watcher runs on the current model value,
    then the queued [nextTick] callback clears the flag. *)
Definition flush (st : Picker) : Picker :=
  let st1 := if watcherQueued st then watchColor (color st) st else st in
  {| color := color st1; hsvRef := hsvRef st1; previewColorRef := previewColorRef st1;
     isInternalUpdate := if resetQueued st1 then false else isInternalUpdate st1;
     watcherQueued := false; resetQueued := false;
     parsedColorCache := parsedColorCache st1 |}.

(** What can happen to a mounted picker; [WriteModel] is the assignment
    of another object ([assignModel] of the same object changes nothing). *)
Inductive Event : Type :=
| SetHsv (hsvUpdate : HsvUpdate.t)
| SetColor (newColor : ColorValue)
| SetPreviewColor (newColor : ColorValue)
| WriteModel (newColor : ColorValue)
| Flush.

Definition step (st : Picker) (e : Event) : Picker :=
  match e with
  | SetHsv hsvUpdate => updateHsv hsvUpdate st
  | SetColor newColor => setColor newColor st
  | SetPreviewColor newColor => setPreviewColor newColor st
  | WriteModel newColor => writeModel newColor st
  | Flush => flush st
  end.

Definition run (st : Picker) (es : list Event) : Picker := fold_left step es st.

End PickerOps.

(* ================================================================== *)
(** * The pointer areas and the text input

    [ColorPickerArea], [ColorPickerSaturation], [ColorPickerInput] (with
    [ColorPicker.vue]) and [LayerControlPoint.vue]: what their handlers
    compute from the pointer or the text. *)
(* ================================================================== *)

(** A number is truthy unless it is a zero or [NaN]. *)
Definition truthy_number (x : float) : bool := negb (PrimFloat.is_zero x || is_nan x).

Module ColorPickerArea.
Section Area.

Local Open Scope float_scope.

(** [clamp(v, min = 0, max = 1)] *)
Definition clamp (v min max : float) : float := JS.Math_max min (JS.Math_min max v).

(** The animation-frame callback of [updatePosition]: the [change] it
    emits, if any.  [elementWidth] and [elementHeight] are numbers, so the
    [?? 0] of the source leaves them as they are. *)
Definition framePosition (elementX elementY elementWidth elementHeight : float)
    : option (float * float) :=
  let w := elementWidth in
  let h := elementHeight in
  if truthy_number w && truthy_number h then
    let x := clamp (elementX / w) 0 1 in
    let y := clamp (elementY / h) 0 1 in
    Some (x, y)
  else None.

End Area.
End ColorPickerArea.

(** [ColorPicker.vue]: what the two areas do with a [change]. *)
Module ColorPicker.
Section Wiring.

Local Open Scope float_scope.

(** [({ x, y }) => setHsv({ s: x, v: 1 - y })] *)
Definition saturationChange (p : float * float) : HsvUpdate.t :=
  let '(x, y) := p in HsvUpdate.mk None (Some x) (Some (1 - y)) None.

(** [({ x }) => setHsv({ h: x * 360 })] *)
Definition hueChange (p : float * float) : HsvUpdate.t :=
  let '(x, _) := p in HsvUpdate.mk (Some (x * 360)) None None None.

End Wiring.
End ColorPicker.

Module ColorPickerSaturation.
Section Saturation.

Local Open Scope float_scope.

Definition clamp (v a b : float) : float := JS.Math_max a (JS.Math_min b v).

(** The animation-frame callback of [updateColorFromPosition]: the update
    it passes to [setHsv], if any. *)
Definition frameUpdate (elementX elementY elementWidth elementHeight : float)
    : option HsvUpdate.t :=
  let w := elementWidth in
  let h := elementHeight in
  if truthy_number w && truthy_number h then
    let s := clamp (elementX / w) 0 1 in
    let v := clamp (1 - elementY / h) 0 1 in
    Some (HsvUpdate.mk None (Some s) (Some v) None)
  else None.

End Saturation.
End ColorPickerSaturation.

Module ColorPickerInput.
Section Input.

Variable env : Platform.

(** The [watch] on colour and format: the text shown afterwards. *)
Definition syncLocal (newColor : ColorValue) (newFormat : ColorFormat)
    (localValue : string) : string :=
  let formatted := formatColor newColor newFormat in
  if negb (String.eqb (JS.toLowerCase formatted) (JS.toLowerCase localValue))
  then formatted else localValue.

(** [handleInput]: the text shown, the colour passed to [setColor] when it
    is called, and the cache afterwards.  ([parseColor] always returns an
    object, so the [if (parsed)] of the source is always taken.) *)
Definition handleInput (cache : gmap string ColorValue) (color : ColorValue)
    (format : ColorFormat) (value : string)
    : string * option ColorValue * gmap string ColorValue :=
  let localValue := value in
  let '(parsed, cache') := parseColor env cache (InString value) in
  let changed :=
    if negb (String.eqb (formatColor parsed format) (formatColor color format))
    then Some parsed else None in
  (localValue, changed, cache').

End Input.
End ColorPickerInput.

Module LayerControlPoint.
Section Drag.

Local Open Scope float_scope.

(** What [onPointerDown] records: the pointer, the parent's rectangle, the
    point's position in percent. *)
Record Start : Type := mkStart {
  startX : float; startY : float;
  rectWidth : float; rectHeight : float;
  startPercentX : float; startPercentY : float
}.

(** The [pointermove] listener: the position it emits. *)
Definition pointerMove (st : Start) (clientX clientY : float) : float * float :=
  let deltaX := clientX - startX st in
  let deltaY := clientY - startY st in
  let deltaPercentX := (deltaX / rectWidth st) * 100 in
  let deltaPercentY := (deltaY / rectHeight st) * 100 in
  let newX := startPercentX st + deltaPercentX in
  let newY := startPercentY st + deltaPercentY in
  let newX := JS.Math_max 0 (JS.Math_min 100 newX) in
  let newY := JS.Math_max 0 (JS.Math_min 100 newY) in
  (newX, newY).

End Drag.
End LayerControlPoint.

(* ================================================================== *)
(** * A reference engine *)
(* ================================================================== *)

(** One engine on which the model can be run: no [document] (the codec's
    [typeof document === "undefined"] branch, as under server-side
    rendering and in the unit tests), and the approximated [Math] functions
    computed in binary64 by their classic series.  Only the [oklch] field
    of a [ColorValue] and the OKLCH input forms depend on these functions. *)
Module Reference.

Local Open Scope float_scope.

Definition ln2 : float := 0.6931471805599453.

(** sum of [x^k / k!] for [k < n], by Horner's rule from the last term *)
Fixpoint exp_series (n : nat) (k : float) (x : float) : float :=
  match n with
  | O => 1
  | S n' => 1 + x / k * exp_series n' (k + 1) x
  end.

Definition exp (x : float) : float :=
  if is_nan x then nan
  else if 710 <? x then infinity
  else if x <? -750 then 0
  else
    let k := JS.Math_round (x / ln2) in
    let r := x - k * ln2 in
    Z.ldexp (exp_series 30 1 r) (default 0%Z (JS.integer_value k)).

(** sum of [t^(2k+1) / (2k+1)] for [k < n] *)
Fixpoint odd_series (alternate : bool) (n : nat) (k : float) (t2 : float) : float :=
  match n with
  | O => 0
  | S n' =>
      let rest := t2 * odd_series alternate n' (k + 2) t2 in
      1 / k + (if alternate then - rest else rest)
  end.

Definition ln (x : float) : float :=
  if is_nan x || (x <? 0) then nan
  else if PrimFloat.is_zero x then neg_infinity
  else if is_infinity x then infinity
  else
    let (m, e) := Z.frexp x in
    let '(m, e) := if m <? 0.7071067811865476 then (m * 2, (e - 1)%Z) else (m, e) in
    let t := (m - 1) / (m + 1) in
    JS.number_of_Z e * ln2 + 2 * t * odd_series false 40 1 (t * t).

Definition pow (x y : float) : float :=
  if PrimFloat.is_zero y then 1
  else if is_nan x || is_nan y then nan
  else if PrimFloat.is_zero x then (if y <? 0 then infinity else 0)
  else if x <? 0 then
    match JS.integer_value y with
    | Some n => if Z.even n then exp (y * ln (- x)) else - exp (y * ln (- x))
    | None => nan
    end
  else exp (y * ln x).

Definition cbrt (x : float) : float :=
  if is_nan x || is_infinity x || PrimFloat.is_zero x then x
  else
    let y := abs x in
    let t := exp (ln y / 3) in
    let t := t - (t * t * t - y) / (3 * t * t) in
    let t := t - (t * t * t - y) / (3 * t * t) in
    if x <? 0 then - t else t.

(** sum of [(-1)^k x^(2k+i) / (2k+i)!], the series of [cos] and [sin] *)
Fixpoint trig_series (n : nat) (k : float) (x2 : float) : float :=
  match n with
  | O => 1
  | S n' => 1 - x2 / (k * (k + 1)) * trig_series n' (k + 2) x2
  end.

Definition cos (x : float) : float :=
  let r := JS.rem x (2 * Math_PI) in
  trig_series 30 1 (r * r).

Definition sin (x : float) : float :=
  let r := JS.rem x (2 * Math_PI) in
  r * trig_series 30 2 (r * r).

Definition halve_angle (t : float) : float := t / (1 + Math_sqrt (1 + t * t)).

(** [atan] on [|t| <= 1], after halving the angle twice *)
Definition atan_small (t : float) : float :=
  let u := halve_angle (halve_angle t) in
  4 * u * odd_series true 40 1 (u * u).

Definition atan (t : float) : float :=
  if is_nan t then nan
  else if 1 <? abs t then
    (if t <? 0 then - (Math_PI / 2) else Math_PI / 2) - atan_small (1 / t)
  else atan_small t.

Definition atan2 (y x : float) : float :=
  if is_nan x || is_nan y then nan
  else if 0 <? x then atan (y / x)
  else if x <? 0 then (if get_sign y then atan (y / x) - Math_PI else atan (y / x) + Math_PI)
  else if PrimFloat.is_zero y then
    (if get_sign x then (if get_sign y then - Math_PI else Math_PI) else y)
  else if y <? 0 then - (Math_PI / 2) else Math_PI / 2.

(** The digits of a fraction in radix 16, written out in full. *)
Fixpoint fraction_digits (fuel : nat) (f : float) : string :=
  match fuel with
  | O => EmptyString
  | S fuel' =>
      if PrimFloat.is_zero f then EmptyString
      else
        let d := JS.floor_small (f * 16) in
        String (JS.hex_char (default 0%Z (JS.integer_value d)))
               (fraction_digits fuel' (f * 16 - d))
  end.

Definition hex_fraction (x : float) : string :=
  let y := abs x in
  let i := if y <? 1 then 0 else if y <? JS.two52 then JS.floor_small y else y in
  let sign := if x <? 0 then "-"%string else EmptyString in
  let whole := JS.Z_toString16 (default 0%Z (JS.integer_value i)) in
  (sign ++ whole ++ "." ++ fraction_digits 280 (y - i))%string.

Definition engine : Platform :=
  {| Math_pow := pow; Math_cbrt := cbrt; Math_atan2 := atan2;
     Math_cos := cos; Math_sin := sin;
     fraction16 := hex_fraction; canvas_fillStyle := None |}.

End Reference.

(* ================================================================== *)
(** * Vocabulary of the specification *)
(* ================================================================== *)

(** An integer channel as a number. *)
Definition channel (n : Z) : float := JS.number_of_Z n.

(** A byte written as two lower-case hex digits. *)
Definition hexByte (n : Z) : string :=
  String (JS.hex_char (n / 16)) (String (JS.hex_char (n mod 16)) EmptyString).

(** [{ v: x }], [{ h: x }] and [{ s: x }] as arguments of [setHsv]. *)
Definition onlyV (x : float) : HsvUpdate.t := HsvUpdate.mk None None (Some x) None.
Definition onlyH (x : float) : HsvUpdate.t := HsvUpdate.mk (Some x) None None None.
Definition onlyS (x : float) : HsvUpdate.t := HsvUpdate.mk None (Some x) None None.

(** The fully saturated, fully bright, opaque colour of a hue. *)
Definition pureHue (h : float) : HsvColor := Hsv.mk h 1 1 1.

(** Events that edit the picker through [setHsv] alone, with a hue that
    rounding and clamping leave as it is (an integer of [0, 360]) whenever
    one is given; ticks may pass in between. *)
Definition hue_edit (e : Event) : Prop :=
  match e with
  | SetHsv u =>
      match HsvUpdate.h u with
      | Some h => clampHue h = h
      | None => True
      end
  | Flush => True
  | SetColor _ | SetPreviewColor _ | WriteModel _ => False
  end.

(** The integers 0 .. n-1. *)
Definition below (n : nat) : list Z := map Z.of_nat (seq 0 n).

(** A channel value prints as its two hex digits. *)
Definition channel_prints (env : Platform) (n : Z) : bool :=
  String.eqb (JS.padStart 2 "0" (toString16 env (channel n))) (hexByte n).

(** Converting [{x, y, z}] to HSV and back gives [{x, y, z}] again. *)
Definition returns (x y z : float) : bool :=
  let c := hsvToRgb (rgbToHsv (Rgb.mk x y z 1)) in
  PrimFloat.Leibniz.eqb (Rgb.r c) x && PrimFloat.Leibniz.eqb (Rgb.g c) y
  && PrimFloat.Leibniz.eqb (Rgb.b c) z.

Section RoundTripTable.

Local Open Scope float_scope.

(** ** The round trip, organised by largest and smallest channel

    [rgbToHsv] gives a triple its saturation and value from the largest
    and the smallest normalised channel alone; only the hue looks at which
    channel is where.  So does [hsvToRgb]: the chroma [c], the offset [m]
    and the rounded channels [Rc] (of [c + m]) and [R0] (of [0 + m]) are
    those of the saturation and value, and the hue picks the sector and
    the middle channel. *)

(** The hue [rgbToHsv] computes, from the largest normalised channel, its
    distance [delta] to the smallest, and the three normalised channels. *)
Definition hue_of (vmax delta VX VY VZ : float) : float :=
  if JS.strict_ne delta 0 then
    let h :=
      if JS.strict_eq vmax VX then JS.rem ((VY - VZ) / delta) 6
      else if JS.strict_eq vmax VY then (VZ - VX) / delta + 2
      else (VX - VY) / delta + 4 in
    let h := h * 60 in
    if h <? 0 then h + 360 else h
  else 0.

(** [hsvToRgb] at hue [h], compared with the channels [X], [Y], [Z]. *)
Definition sector_check (c m Rc R0 h : float) (X Y Z : float) : bool :=
  let h := JS.rem h 360 in
  let h := if h <? 0 then h + 360 else h in
  let x := c * (1 - JS.Math_abs (JS.rem (h / 60) 2 - 1)) in
  let Rx := JS.Math_round ((x + m) * 255) in
  if JS.geb h 0 && (h <? 60) then
    PrimFloat.Leibniz.eqb Rc X && PrimFloat.Leibniz.eqb Rx Y && PrimFloat.Leibniz.eqb R0 Z
  else if JS.geb h 60 && (h <? 120) then
    PrimFloat.Leibniz.eqb Rx X && PrimFloat.Leibniz.eqb Rc Y && PrimFloat.Leibniz.eqb R0 Z
  else if JS.geb h 120 && (h <? 180) then
    PrimFloat.Leibniz.eqb R0 X && PrimFloat.Leibniz.eqb Rc Y && PrimFloat.Leibniz.eqb Rx Z
  else if JS.geb h 180 && (h <? 240) then
    PrimFloat.Leibniz.eqb R0 X && PrimFloat.Leibniz.eqb Rx Y && PrimFloat.Leibniz.eqb Rc Z
  else if JS.geb h 240 && (h <? 300) then
    PrimFloat.Leibniz.eqb Rx X && PrimFloat.Leibniz.eqb R0 Y && PrimFloat.Leibniz.eqb Rc Z
  else if JS.geb h 300 && (h <? 360) then
    PrimFloat.Leibniz.eqb Rc X && PrimFloat.Leibniz.eqb R0 Y && PrimFloat.Leibniz.eqb Rx Z
  else
    PrimFloat.Leibniz.eqb R0 X && PrimFloat.Leibniz.eqb R0 Y && PrimFloat.Leibniz.eqb R0 Z.

Definition perm_ok (vmax delta c m Rc R0 : float) (X Y Z VX VY VZ : float) : bool :=
  sector_check c m Rc R0 (hue_of vmax delta VX VY VZ) X Y Z.

(** The round trip of [{X, Y, Z}] when [vM] and [vm] are its largest and
    smallest normalised channel. *)
Definition returns_given (vM vm : float) (X Y Z : float) : bool :=
  let delta := vM - vm in
  let s := if JS.strict_eq vM 0 then 0 else delta / vM in
  let c := vM * s in
  let m := vM - c in
  perm_ok vM delta c m (JS.Math_round ((c + m) * 255)) (JS.Math_round ((0 + m) * 255))
          X Y Z (X / 255) (Y / 255) (Z / 255).

(** A channel with its normalised value. *)
Definition Entry : Type := float * float.
Definition entry (n : Z) : Entry := (channel n, channel n / 255).
Definition entries : list Entry := map entry (below 256).

(** [Math.max] and [Math.min] find [va] below [vb], either way round. *)
Definition ordered (va vb : float) : bool :=
  PrimFloat.Leibniz.eqb (JS.Math_max va vb) vb
  && PrimFloat.Leibniz.eqb (JS.Math_max vb va) vb
  && PrimFloat.Leibniz.eqb (JS.Math_min va vb) va
  && PrimFloat.Leibniz.eqb (JS.Math_min vb va) va.

(** Every triple with smallest channel [lo], largest channel [hi] and the
    third among [mids] makes the round trip, in each of its six orders. *)
Definition pair_ok (lo hi : Entry) (mids : list Entry) : bool :=
  let '(cm, vm) := lo in
  let '(cM, vM) := hi in
  let delta := vM - vm in
  let s := if JS.strict_eq vM 0 then 0 else delta / vM in
  let c := vM * s in
  let m := vM - c in
  let Rc := JS.Math_round ((c + m) * 255) in
  let R0 := JS.Math_round ((0 + m) * 255) in
  ordered vm vM
  && forallb (fun '(cd, vd) =>
                perm_ok vM delta c m Rc R0 cM cd cm vM vd vm
                && perm_ok vM delta c m Rc R0 cM cm cd vM vm vd
                && perm_ok vM delta c m Rc R0 cd cM cm vd vM vm
                && perm_ok vM delta c m Rc R0 cm cM cd vm vM vd
                && perm_ok vM delta c m Rc R0 cd cm cM vd vm vM
                && perm_ok vM delta c m Rc R0 cm cd cM vm vd vM) mids.

(** [lo] against each [hi] of the list [l] in turn, the third channel
    ranging over [seen] and the part of [l] up to [hi]. *)
Fixpoint his (lo : Entry) (seen l : list Entry) : bool :=
  match l with
  | [] => true
  | hi :: l' => pair_ok lo hi (hi :: seen) && his lo (hi :: seen) l'
  end.

(** Each element of the list as [lo], against itself and what follows. *)
Fixpoint lows (l : list Entry) : bool :=
  match l with
  | [] => true
  | lo :: rest => his lo [] l && lows rest
  end.

End RoundTripTable.

(** ** Ranges *)

Section Ranges.

Local Open Scope float_scope.

(** [lo <= x && x <= hi] *)
Definition within (lo hi x : float) : Prop := (lo <=? x) = true /\ (x <=? hi) = true.

(** [Math.max(lo, Math.min(hi, v))], the clamp every component writes. *)
Definition clamp_to (lo hi v : float) : float := JS.Math_max lo (JS.Math_min hi v).

(** How two numbers compare: every comparison of the pair at once. *)
Inductive float_order (x y : float) : Prop :=
| order_lt :
    (x <? y) = true -> (x <=? y) = true -> (x =? y) = false ->
    (y <? x) = false -> (y <=? x) = false -> (y =? x) = false ->
    is_nan x = false -> is_nan y = false -> float_order x y
| order_eq :
    (x <? y) = false -> (x <=? y) = true -> (x =? y) = true ->
    (y <? x) = false -> (y <=? x) = true -> (y =? x) = true ->
    is_nan x = false -> is_nan y = false -> float_order x y
| order_gt :
    (x <? y) = false -> (x <=? y) = false -> (x =? y) = false ->
    (y <? x) = true -> (y <=? x) = true -> (y =? x) = false ->
    is_nan x = false -> is_nan y = false -> float_order x y
| order_none :
    (x <? y) = false -> (x <=? y) = false -> (x =? y) = false ->
    (y <? x) = false -> (y <=? x) = false -> (y =? x) = false ->
    is_nan x = true \/ is_nan y = true -> float_order x y.

(** Every pair of an element of the list and a later (or the same) one. *)
Fixpoint ordered_pairs (f : Entry -> Entry -> bool) (l : list Entry) : bool :=
  match l with
  | [] => true
  | lo :: rest => forallb (f lo) l && ordered_pairs f rest
  end.

Definition unit_interval (x : float) : bool := (0 <=? x) && (x <=? 1).

(** The saturation [rgbToHsv] computes from the smallest and the largest
    normalised channel, and the value, are in [0, 1]. *)
Definition saturation_ok (lo hi : Entry) : bool :=
  let vm := snd lo in
  let vM := snd hi in
  let delta := vM - vm in
  unit_interval (if JS.strict_eq vM 0 then 0 else delta / vM) && unit_interval vM.

(** A grey has hue 0 and saturation 0. *)
Definition grey_ok (n : Z) : bool :=
  let hsv := rgbToHsv (Rgb.mk (channel n) (channel n) (channel n) 1) in
  PrimFloat.Leibniz.eqb (Hsv.h hsv) 0 && PrimFloat.Leibniz.eqb (Hsv.s hsv) 0.

End Ranges.

(** ** Hex text *)

(** [#] and 3, 4, 6 or 8 hex digits. *)
Definition is_hex_text (s : string) : bool :=
  match s with
  | String c t =>
      Ascii.eqb c "#"
      && (let n := String.length t in
          (n =? 8)%nat || (n =? 6)%nat || (n =? 4)%nat || (n =? 3)%nat)
      && forallb JS.is_hex_digit (list_ascii_of_string t)
  | EmptyString => false
  end.

(** A hex text of 4 or 8 digits ends in alpha digits. *)
Definition has_alpha_digits (s : string) : bool :=
  let n := String.length s in (n =? 5)%nat || (n =? 9)%nat.

(** The hex digits, the value of one, and the byte two of them write. *)
Definition hexchars : list ascii := list_ascii_of_string "0123456789abcdefABCDEF".
Definition hexval (c : ascii) : Z := default 0%Z (JS.digit_value c).
Definition byte_of (c1 c2 : ascii) : Z := (hexval c1 * 16 + hexval c2)%Z.
Definition pair (c1 c2 : ascii) : string := String c1 (String c2 EmptyString).
Definition lower_pair (c1 c2 : ascii) : string := pair (JS.lower_char c1) (JS.lower_char c2).

(** What a pair of hex digits reads as, and how its value prints. *)
Definition pair_reads (c1 c2 : ascii) : bool :=
  let n := byte_of c1 c2 in
  PrimFloat.Leibniz.eqb (JS.parseInt (pair c1 c2) 16) (channel n)
  && (0 <=? n)%Z && (n <=? 255)%Z
  && String.eqb (hexByte n) (lower_pair c1 c2).

(** An alpha byte [n]: [n / 255] is below 1 and gives [n] back, except 255. *)
Definition alpha_byte (n : Z) : bool :=
  let a := (channel n / 255)%float in
  if (n =? 255)%Z then PrimFloat.Leibniz.eqb a 1
  else (a <? 1)%float && PrimFloat.Leibniz.eqb (JS.Math_round (a * 255)) (channel n).

(** The two characters of a byte are hex digits with the byte as value,
    not white space, and lower case. *)
Definition byte_reads (n : Z) : bool :=
  let c1 := JS.hex_char (n / 16) in
  let c2 := JS.hex_char (n mod 16) in
  JS.is_hex_digit c1 && JS.is_hex_digit c2 && (byte_of c1 c2 =? n)%Z
  && negb (JS.is_white c1) && negb (JS.is_white c2)
  && Ascii.eqb (JS.lower_char c1) c1 && Ascii.eqb (JS.lower_char c2) c2.

(** A channel value prints in decimal and reads back. *)
Definition channel_text (n : Z) : bool :=
  let t := JS.Number_toString (channel n) in
  match list_ascii_of_string t with
  | d :: ds =>
      forallb JS.is_digit (d :: ds)
      && PrimFloat.Leibniz.eqb (JS.parseInt t 10) (channel n)
  | [] => false
  end.

(** The text [rgb(A, B, C)]. *)
Definition rgb_text (A B C : list ascii) : list ascii :=
  list_ascii_of_string "rgb(" ++ A ++ list_ascii_of_string ", " ++ B
  ++ list_ascii_of_string ", " ++ C ++ [")"%char].

(** ** Repetition

    The loop that [JS.rmatch] runs for [Star (Class p)], and where a run of
    [p] ends: at the end of the text or before a character not in [p]. *)
Definition star_loop (p : ascii -> bool)
    (k : list ascii -> JS.captures -> option JS.captures) :=
  fix star (fuel : nat) (s : list ascii) (cs : JS.captures) {struct fuel}
      : option JS.captures :=
    match fuel with
    | O => k s cs
    | S fuel' =>
        match JS.rmatch (JS.Class p) s cs
                (fun s' cs' =>
                   if (List.length s' <? List.length s)%nat
                   then star fuel' s' cs' else None) with
        | Some res => Some res
        | None => k s cs
        end
    end.

Definition stops (p : ascii -> bool) (rest : list ascii) : Prop :=
  match rest with
  | [] => True
  | x :: _ => p x = false
  end.

(** ** The guard of the picker *)

(** The guard is up only while its reset is pending. *)
Definition guard_pending (st : Picker) : Prop :=
  isInternalUpdate st = true -> resetQueued st = true.

(** The invariant behind the preview: it is the pure colour of the tracked
    hue, and a queued observer finds the guard up. *)
Definition preview_in_step (env : Platform) (st : Picker) : Prop :=
  previewColorRef st = colorValueOf env (hsvToRgb (pureHue (Hsv.h (hsvRef st))))
  /\ (watcherQueued st = true -> isInternalUpdate st = true).

(** Sample values, on the reference engine. *)
Module Sample.

Definition parse (s : string) : ColorValue :=
  (parseColor Reference.engine ∅ (InString s)).1.

Definition red : ColorValue := parse "#ff0000".
Definition blue : ColorValue := parse "#0000ff".
Definition black : ColorValue := parse "#000000".

(** a picker mounted on red *)
Definition mounted : Picker := setup Reference.engine ∅ red.

(** the same picker after [setHsv({h: 200, s: 0.5, v: 0.5})] *)
Definition teal : Picker :=
  updateHsv Reference.engine (HsvUpdate.mk (Some 200%float) (Some 0.5%float) (Some 0.5%float) None)
            mounted.

End Sample.

(* ================================================================== *)
(** * Properties *)
(* ================================================================== *)

(** ** Numbers *)

Section NumberFacts.

Local Open Scope float_scope.

(** A number that compares equal to zero is one of the two zeros. *)
Lemma eqb_zero_cases (x : float) : (x =? 0) = true -> x = 0 \/ x = -0.
Proof.
  intros H. rewrite FloatAxioms.eqb_spec in H.
  rewrite <- (SF2Prim_Prim2SF x).
  destruct (Prim2SF x) as [sg | sg | | sg m e]; try destruct sg;
    cbn in H; try discriminate H; [right | left]; reflexivity.
Qed.

Lemma gtb_zero_of_eqb (x : float) : (x =? 0) = true -> JS.gtb x 0 = false.
Proof. intros H. destruct (eqb_zero_cases x H) as [-> | ->]; reflexivity. Qed.

End NumberFacts.

(** ** parseColor *)

Section ParseFacts.

Variable env : Platform.

(** Only a full [ColorValue] has both [hex] and [rgb]. *)
Lemma has_hex_rgb (input : ColorInput) :
  is_object input && has_property "hex" input && has_property "rgb" input = true ->
  exists value, input = InValue value.
Proof. destruct input; try discriminate. eauto. Qed.

(** An HSV object has no cache key: its value is always built afresh, from
    the RGB triple it converts to, whatever the cache holds. *)
Lemma parseColor_hsv (cache : gmap string ColorValue) (c : HsvColor) :
  parseColor env cache (InHsv c)
  = (colorValueOf env (hsvToRgb c),
     <[rgbToHex env (hsvToRgb c) := colorValueOf env (hsvToRgb c)]> cache).
Proof. reflexivity. Qed.

Lemma parseColor_value (cache : gmap string ColorValue) (value : ColorValue) :
  parseColor env cache (InValue value) = (value, cache).
Proof. reflexivity. Qed.

(** Without an entry under its cache key, an input that [parseToRgb] does
    not recognise comes out as opaque black. *)
Lemma parseColor_fallback (cache : gmap string ColorValue) (input : ColorInput) :
  parseToRgb env input = None ->
  (forall s, input = InString s -> cache !! JS.trim (JS.toLowerCase s) = None) ->
  (parseColor env cache input).1 = colorValueOf env opaque_black.
Proof.
  intros Hnone Hmiss. destruct input as [s | c | c | c | c | ]; try discriminate Hnone.
  - unfold parseColor. cbn [is_object is_string negb andb cacheKeyOf mbind option_bind].
    rewrite (Hmiss s eq_refl). rewrite Hnone. reflexivity.
  - reflexivity.
Qed.

End ParseFacts.

(** ** The picker *)

Section PickerFacts.

Variable env : Platform.

Lemma updateHsv_hsvRef (u : HsvUpdate.t) (st : Picker) :
  hsvRef (updateHsv env u st)
  = match HsvUpdate.h u with
    | Some h =>
        Hsv.mk (clampHue h) (default (Hsv.s (hsvRef st)) (HsvUpdate.s u))
               (default (Hsv.v (hsvRef st)) (HsvUpdate.v u))
               (default (Hsv.a (hsvRef st)) (HsvUpdate.a u))
    | None => spread (hsvRef st) u
    end.
Proof. unfold updateHsv. rewrite !parseColor_hsv. destruct (HsvUpdate.h u); reflexivity. Qed.

Lemma updateHsv_flags (u : HsvUpdate.t) (st : Picker) :
  isInternalUpdate (updateHsv env u st) = true
  /\ watcherQueued (updateHsv env u st) = true
  /\ resetQueued (updateHsv env u st) = true.
Proof. unfold updateHsv. rewrite !parseColor_hsv. destruct (HsvUpdate.h u); auto. Qed.

(** A flush while the guard is up leaves the tracked HSV alone. *)
Lemma flush_guarded (st : Picker) :
  isInternalUpdate st = true -> hsvRef (flush st) = hsvRef st.
Proof.
  intros Hg. unfold flush, watchColor. rewrite Hg.
  destruct (watcherQueued st); reflexivity.
Qed.

(** A flush with nothing queued leaves the tracked HSV alone. *)
Lemma flush_idle (st : Picker) :
  watcherQueued st = false -> hsvRef (flush st) = hsvRef st.
Proof. intros Hq. unfold flush. rewrite Hq. reflexivity. Qed.

Lemma flush_queues (st : Picker) :
  watcherQueued (flush st) = false /\ resetQueued (flush st) = false.
Proof. split; reflexivity. Qed.

Lemma flush_preview (st : Picker) : previewColorRef (flush st) = previewColorRef st.
Proof.
  unfold flush, watchColor.
  destruct (watcherQueued st), (isInternalUpdate st); reflexivity.
Qed.

Lemma run_app (st : Picker) (es1 es2 : list Event) :
  run env st (es1 ++ es2) = run env (run env st es1) es2.
Proof. apply fold_left_app. Qed.

Lemma run_cons (st : Picker) (e : Event) (es : list Event) :
  run env st (e :: es) = run env (step env st e) es.
Proof. reflexivity. Qed.

Lemma flushes_idle (st : Picker) (n : nat) :
  watcherQueued st = false -> hsvRef (run env st (repeat Flush n)) = hsvRef st.
Proof.
  induction n as [| n IH] in st |- *; intros Hq; [reflexivity |].
  cbn [repeat]. rewrite run_cons. cbn [step].
  rewrite IH by reflexivity. apply flush_idle, Hq.
Qed.

(** Flushes after a [setHsv]: none of them moves the tracked HSV. *)
Lemma flushes_after_updateHsv (u : HsvUpdate.t) (st : Picker) (n : nat) :
  hsvRef (run env (updateHsv env u st) (repeat Flush n)) = hsvRef (updateHsv env u st).
Proof.
  destruct n as [| n]; [reflexivity |].
  cbn [repeat]. rewrite run_cons. cbn [step].
  rewrite flushes_idle by reflexivity.
  apply flush_guarded, updateHsv_flags.
Qed.

Lemma flushes_preview (st : Picker) (n : nat) :
  previewColorRef (run env st (repeat Flush n)) = previewColorRef st.
Proof.
  induction n as [| n IH] in st |- *; [reflexivity |].
  cbn [repeat]. rewrite run_cons. cbn [step].
  rewrite IH. apply flush_preview.
Qed.

(** Writes to the model move nothing but the model (and queue the watcher). *)
Lemma writes_keep (cs : list ColorValue) (st : Picker) :
  let st' := run env st (map WriteModel cs) in
  hsvRef st' = hsvRef st /\ previewColorRef st' = previewColorRef st
  /\ isInternalUpdate st' = isInternalUpdate st /\ resetQueued st' = resetQueued st
  /\ color st' = default (color st) (last cs).
Proof.
  induction cs as [| c cs IH] in st |- *; [cbn; auto |].
  cbn [map]. rewrite run_cons. cbn [step].
  destruct (IH (writeModel c st)) as (H1 & H2 & H3 & H4 & H5).
  cbv zeta. rewrite H1, H2, H3, H4, H5. repeat split.
  rewrite last_cons. cbn [color writeModel]. destruct (last cs); reflexivity.
Qed.

End PickerFacts.

(** ** Claims about the picker *)

Section PickerClaims.

Variable env : Platform.

(** C3. From a tracked HSV of [{h: 200, s: 0.5, v: 0.5}] (any alpha),
    [setHsv({v: 0})] followed by [setHsv({v: 0.5})], with any number of
    ticks after each call and no [setColor] or model write in between,
    leaves the tracked hue at 200 and the saturation at 0.5 (and the whole
    tracked HSV as it was). *)
Theorem hue_kept_through_black (st : Picker) (a : float) (n m : nat) :
  hsvRef st = Hsv.mk 200 0.5 0.5 a ->
  let st' := run env st ([SetHsv (onlyV 0)] ++ repeat Flush n ++
                         [SetHsv (onlyV 0.5)] ++ repeat Flush m) in
  Hsv.h (hsvRef st') = 200%float /\ Hsv.s (hsvRef st') = 0.5%float
  /\ hsvRef st' = Hsv.mk 200 0.5 0.5 a.
Proof.
  intros Hst st'. assert (hsvRef st' = Hsv.mk 200 0.5 0.5 a) as ->; [| auto].
  subst st'. cbn [app]. rewrite run_cons, run_app, run_cons. cbn [step].
  rewrite flushes_after_updateHsv, updateHsv_hsvRef. cbn.
  rewrite flushes_after_updateHsv, updateHsv_hsvRef. cbn.
  rewrite Hst. reflexivity.
Qed.

(** C4, as the code has it.  When the model is replaced from outside by
    another object while the guard of [setHsv] is down, the observer that
    runs at the end of the tick takes the last colour written as the
    incoming one: it adopts the incoming HSV as it is if [v > 0] and
    [s > 0]; otherwise, and in particular when [v == 0] or [s == 0], it
    keeps the tracked [h] and [s] and takes only [v] and [a] from the
    incoming colour.  [setColor] is outside the rule: it installs the
    colour's own HSV, grey or not.  Assigning the object the model holds
    already changes nothing. *)
Theorem external_change_keeps_hue (st : Picker) (cs : list ColorValue)
    (newVal : ColorValue) :
  isInternalUpdate st = false ->
  let incoming := hsv newVal in
  let kept := Hsv.mk (Hsv.h (hsvRef st)) (Hsv.s (hsvRef st))
                     (Hsv.v incoming) (Hsv.a incoming) in
  let st' := run env st (map WriteModel cs ++ [WriteModel newVal; Flush]) in
  color st' = newVal
  /\ (JS.gtb (Hsv.v incoming) 0 && JS.gtb (Hsv.s incoming) 0 = true ->
      hsvRef st' = incoming)
  /\ (JS.gtb (Hsv.v incoming) 0 && JS.gtb (Hsv.s incoming) 0 = false ->
      hsvRef st' = kept)
  /\ (PrimFloat.eqb (Hsv.v incoming) 0 || PrimFloat.eqb (Hsv.s incoming) 0 = true ->
      hsvRef st' = kept)
  /\ hsvRef (run env st [SetColor newVal; Flush]) = incoming
  /\ (watcherQueued st = false ->
      hsvRef (flush (assignModel SameObject st)) = hsvRef st).
Proof.
  intros Hg incoming kept st'.
  destruct (writes_keep env cs st) as (H1 & _ & H3 & _ & _).
  assert (Hst' : color st' = newVal
                 /\ hsvRef st' =
                    if JS.gtb (Hsv.v incoming) 0 && JS.gtb (Hsv.s incoming) 0
                    then incoming else kept).
  { subst st'. rewrite run_app.
    set (st1 := run env st (map WriteModel cs)) in *.
    cbn [run fold_left step]. unfold flush, writeModel, watchColor. cbn.
    rewrite H3, Hg, H1. cbn. split; reflexivity. }
  destruct Hst' as [Hcolor Hst']. rewrite Hst'.
  split; [exact Hcolor |]. repeat split.
  - intros ->. reflexivity.
  - intros ->. reflexivity.
  - intros Hz. apply orb_true_iff in Hz as [Hz | Hz];
      rewrite (gtb_zero_of_eqb _ Hz), ?andb_false_r; reflexivity.
  - cbn [run fold_left step]. unfold flush, setColor, watchColor. cbn.
    rewrite Hg. subst incoming. destruct (hsv newVal) as [h s v a]. cbn.
    destruct (_ && _); reflexivity.
  - intros Hq. cbn [assignModel]. apply flush_idle, Hq.
Qed.

(** C5, as the code has it.  A call [setHsv(partial)] in which [h] is
    present sets the tracked hue to [round(h)] clamped into [0, 360], the
    colour to [parseColor] of the merged HSV, and the preview to
    [parseColor({h, s: 1, v: 1, a: 1})] for [h] as it was passed, before
    rounding and clamping; the two hues are the same when [h] is already an
    integer of [0, 360].  Every field of the preview, [hsv] included, is
    rebuilt from the RGB triple of that colour. *)
Theorem setHsv_with_hue (st : Picker) (u : HsvUpdate.t) (h : float) :
  HsvUpdate.h u = Some h ->
  let st' := updateHsv env u st in
  let newH := clampHue h in
  hsvRef st' = Hsv.mk newH (default (Hsv.s (hsvRef st)) (HsvUpdate.s u))
                           (default (Hsv.v (hsvRef st)) (HsvUpdate.v u))
                           (default (Hsv.a (hsvRef st)) (HsvUpdate.a u))
  /\ (forall cache, color st' = (parseColor env cache (InHsv (hsvRef st'))).1)
  /\ (forall cache, previewColorRef st' = (parseColor env cache (InHsv (pureHue h))).1)
  /\ previewColorRef st' = colorValueOf env (hsvToRgb (pureHue h))
  /\ (newH = h ->
      forall cache, previewColorRef st' = (parseColor env cache (InHsv (pureHue newH))).1).
Proof.
  intros Hh st' newH.
  assert (Hp : previewColorRef st' = colorValueOf env (hsvToRgb (pureHue h))).
  { subst st'. unfold updateHsv. rewrite Hh, !parseColor_hsv. reflexivity. }
  assert (Hc : color st' = colorValueOf env (hsvToRgb (hsvRef st'))).
  { subst st'. unfold updateHsv. rewrite Hh, !parseColor_hsv. reflexivity. }
  repeat split.
  - subst st'. rewrite updateHsv_hsvRef, Hh. reflexivity.
  - intros cache. rewrite parseColor_hsv. exact Hc.
  - intros cache. rewrite parseColor_hsv. exact Hp.
  - exact Hp.
  - intros -> cache. rewrite parseColor_hsv. exact Hp.
Qed.

(** C9. A call [setHsv(partial)] without [h] leaves the preview colour as
    it was, also after the ticks that follow; so a call that changes the
    preview carries an [h]. *)
Theorem setHsv_without_hue_keeps_preview (st : Picker) (u : HsvUpdate.t) :
  (HsvUpdate.h u = None ->
   previewColorRef (updateHsv env u st) = previewColorRef st
   /\ forall n, previewColorRef (run env st (SetHsv u :: repeat Flush n))
                = previewColorRef st)
  /\ (previewColorRef (updateHsv env u st) <> previewColorRef st ->
      exists h, HsvUpdate.h u = Some h).
Proof.
  assert (Hkeep : HsvUpdate.h u = None ->
                  previewColorRef (updateHsv env u st) = previewColorRef st).
  { intros Hh. unfold updateHsv. rewrite Hh, parseColor_hsv. reflexivity. }
  split.
  - intros Hh. split; [exact (Hkeep Hh) |].
    intros n. rewrite run_cons. cbn [step]. rewrite flushes_preview. exact (Hkeep Hh).
  - intros Hne. destruct (HsvUpdate.h u) as [h |] eqn:Hh; [eauto |].
    contradiction (Hne (Hkeep eq_refl)).
Qed.

Lemma preview_in_step_setup (cache : gmap string ColorValue) (initial : ColorValue) :
  Hsv.a (hsv initial) = 1%float -> preview_in_step env (setup env cache initial).
Proof.
  intros Ha. unfold setup. rewrite parseColor_hsv, Ha. split; [reflexivity |].
  discriminate.
Qed.

Lemma preview_in_step_step (st : Picker) (e : Event) :
  hue_edit e -> preview_in_step env st -> preview_in_step env (step env st e).
Proof.
  intros He [Hp Hq]. destruct e as [u | c | c | c | ]; try contradiction He; cbn [step].
  - split; [| intros _; apply updateHsv_flags].
    destruct u as [[h |] us uv ua]; cbn [hue_edit HsvUpdate.h] in He;
      rewrite updateHsv_hsvRef; unfold updateHsv; rewrite !parseColor_hsv; cbn.
    + rewrite He. reflexivity.
    + exact Hp.
  - split; [| discriminate].
    assert (Hsame : hsvRef (flush st) = hsvRef st).
    { destruct (watcherQueued st) eqn:Hw.
      - apply flush_guarded, Hq. reflexivity.
      - apply flush_idle, Hw. }
    rewrite flush_preview, Hsame. exact Hp.
Qed.

(** C6, as the code has it.  Started from a colour of alpha 1 and edited
    through [setHsv] alone, each hue given being an integer of [0, 360],
    the picker keeps [previewColor == parseColor({h: hsv.h, s: 1, v: 1,
    a: 1})] in every state it reaches. *)
Theorem preview_follows_hue (cache : gmap string ColorValue) (initial : ColorValue)
    (es : list Event) :
  Hsv.a (hsv initial) = 1%float ->
  Forall hue_edit es ->
  let st := run env (setup env cache initial) es in
  forall cache', previewColorRef st
                 = (parseColor env cache' (InHsv (pureHue (Hsv.h (hsvRef st))))).1.
Proof.
  intros Ha Hes st cache'. rewrite parseColor_hsv. cbn [fst].
  assert (Hinv : preview_in_step env st); [| apply Hinv].
  subst st. generalize (preview_in_step_setup cache initial Ha).
  generalize (setup env cache initial). intros st0 H0.
  induction Hes as [| e es He Hes IH] in st0, H0 |- *; [exact H0 |].
  rewrite run_cons. apply IH, preview_in_step_step; assumption.
Qed.

(** C10. An object with both a [hex] and an [rgb] property is a full
    [ColorValue]; [parseColor] returns it as it is, whatever its four
    fields hold, and leaves the cache alone.  Hence parsing the result of
    [parseColor] once more changes nothing. *)
Theorem parseColor_idempotent :
  (forall cache input,
      is_object input && has_property "hex" input && has_property "rgb" input = true ->
      exists value, input = InValue value /\ parseColor env cache input = (value, cache))
  /\ (forall cache value, parseColor env cache (InValue value) = (value, cache))
  /\ (forall cache cache' x,
         parseColor env cache' (InValue (parseColor env cache x).1)
         = ((parseColor env cache x).1, cache')).
Proof.
  split; [| split; reflexivity].
  intros cache input Hin. destruct (has_hex_rgb input Hin) as [value ->]. eauto.
Qed.

End PickerClaims.

(** ** Claims about the codec *)

Section CodecClaims.

Variable env : Platform.

Lemma in_below (n : nat) (z : Z) : (0 <= z < Z.of_nat n)%Z -> In z (below n).
Proof.
  intros Hz. unfold below. apply in_map_iff. exists (Z.to_nat z).
  split; [lia |]. apply in_seq. lia.
Qed.

Lemma channel_hex (n : Z) :
  (0 <= n <= 255)%Z -> JS.padStart 2 "0" (toString16 env (channel n)) = hexByte n.
Proof.
  intros Hn. apply String.eqb_eq.
  assert (Hall : forallb (channel_prints env) (below 256) = true) by (vm_compute; reflexivity).
  rewrite forallb_forall in Hall. apply (Hall n), in_below. lia.
Qed.

Lemma rgbToHex_unfold (c : RgbColor) :
  rgbToHex env c
  = ("#" ++ JS.padStart 2 "0" (toString16 env (Rgb.r c))
         ++ JS.padStart 2 "0" (toString16 env (Rgb.g c))
         ++ JS.padStart 2 "0" (toString16 env (Rgb.b c))
         ++ (if PrimFloat.ltb (Rgb.a c) 1
             then JS.padStart 2 "0" (toString16 env (JS.Math_round (Rgb.a c * 255)))
             else ""))%string.
Proof. reflexivity. Qed.

(** C1, as the code has it.  For integer channels of [0, 255], [rgbToHex]
    writes [#] and the three channels as two hex digits each; when
    [a < 1] it appends [round(a * 255)] in hex, padded to two digits,
    which for [a == 0] is [00] after the channels as they are (so
    [#00000000] only for black); when [a == 1], and whenever [a < 1] does
    not hold, it appends nothing. *)
Theorem rgbToHex_layout (nr ng nb : Z) (a : float) :
  (0 <= nr <= 255)%Z -> (0 <= ng <= 255)%Z -> (0 <= nb <= 255)%Z ->
  let c := Rgb.mk (channel nr) (channel ng) (channel nb) a in
  let channels := ("#" ++ hexByte nr ++ hexByte ng ++ hexByte nb)%string in
  (PrimFloat.ltb a 1 = true ->
   rgbToHex env c
   = (channels ++ JS.padStart 2 "0" (toString16 env (JS.Math_round (a * 255))))%string)
  /\ (PrimFloat.eqb a 0 = true -> rgbToHex env c = (channels ++ "00")%string)
  /\ (PrimFloat.ltb a 1 = false -> rgbToHex env c = channels)
  /\ (a = 1%float -> rgbToHex env c = channels).
Proof.
  intros Hr Hg Hb c channels.
  assert (Hc : forall alphaHex : string,
             ("#" ++ JS.padStart 2 "0" (toString16 env (Rgb.r c))
                  ++ JS.padStart 2 "0" (toString16 env (Rgb.g c))
                  ++ JS.padStart 2 "0" (toString16 env (Rgb.b c)) ++ alphaHex)%string
             = (channels ++ alphaHex)%string).
  { intros alphaHex. subst c channels. cbn [Rgb.r Rgb.g Rgb.b].
    rewrite !channel_hex by assumption. reflexivity. }
  rewrite rgbToHex_unfold, Hc. cbn [Rgb.a c]. repeat split.
  - intros ->. reflexivity.
  - intros Hz. destruct (eqb_zero_cases a Hz) as [-> | ->]; reflexivity.
  - intros ->. subst channels. cbn [hexByte]. cbn [String.append].
    reflexivity.
  - intros ->. reflexivity.
Qed.

(** *** The round trip, for each of the 256^3 channel triples *)

Section RoundTrip.

Local Open Scope float_scope.

Lemma pair_ok_single (lo hi d : Entry) (mids : list Entry) :
  pair_ok lo hi mids = true -> In d mids -> pair_ok lo hi [d] = true.
Proof.
  destruct lo as [cm vm], hi as [cM vM]. unfold pair_ok. cbv zeta.
  intros H Hd. apply andb_true_iff in H as [Ho Hall].
  rewrite Ho. cbn [andb forallb]. rewrite andb_true_r.
  exact (proj1 (forallb_forall _ _) Hall d Hd).
Qed.

Lemma his_spec (g : nat -> Entry) (lo : Entry) (n : nat) :
  forall (a : nat) (seen : list Entry),
    his lo seen (map g (seq a n)) = true ->
    forall (j : nat) (d : Entry),
      (a <= j < a + n)%nat ->
      In d seen \/ (exists k, (a <= k <= j)%nat /\ d = g k) ->
      pair_ok lo (g j) [d] = true.
Proof.
  induction n as [| n IH]; intros a seen H j d Hj Hd; [lia |].
  cbn [seq map his] in H. apply andb_true_iff in H as [Hhere Hrest].
  destruct (Nat.eq_dec j a) as [-> | Hne].
  - apply (pair_ok_single _ _ _ _ Hhere).
    destruct Hd as [Hd | (k & Hk & ->)].
    + right. exact Hd.
    + left. f_equal. lia.
  - apply (IH (S a) (g a :: seen) Hrest); [lia |].
    destruct Hd as [Hd | (k & Hk & ->)].
    + left. right. exact Hd.
    + destruct (Nat.eq_dec k a) as [-> | Hk'].
      * left. left. reflexivity.
      * right. exists k. split; [lia | reflexivity].
Qed.

Lemma lows_spec (g : nat -> Entry) (n : nat) :
  forall a : nat,
    lows (map g (seq a n)) = true ->
    forall i k j : nat,
      (a <= i)%nat -> (i <= k <= j)%nat -> (j < a + n)%nat ->
      pair_ok (g i) (g j) [g k] = true.
Proof.
  induction n as [| n IH]; intros a H i k j Hi Hk Hj; [lia |].
  change (lows (map g (seq a (S n))))
    with (his (g a) [] (map g (seq a (S n))) && lows (map g (seq (S a) n))) in H.
  apply andb_true_iff in H as [Hhere Hrest].
  destruct (Nat.eq_dec i a) as [-> | Hne].
  - apply (his_spec g (g a) (S n) a [] Hhere); [lia |].
    right. exists k. split; [lia | reflexivity].
  - apply (IH (S a) Hrest); lia.
Qed.

(** The table itself: every pair of a smallest and a largest channel, with
    every third channel between them, in all six orders. *)
Lemma roundtrip_table : lows entries = true.
Proof. vm_compute. reflexivity. Qed.

Lemma table_entry (i k j : Z) :
  (0 <= i)%Z -> (i <= k <= j)%Z -> (j <= 255)%Z ->
  pair_ok (entry i) (entry j) [entry k] = true.
Proof.
  intros Hi Hk Hj. pose proof roundtrip_table as H.
  unfold entries, below in H. rewrite map_map in H.
  pose proof (lows_spec _ _ _ H (Z.to_nat i) (Z.to_nat k) (Z.to_nat j)) as H'.
  cbv beta in H'. rewrite !Z2Nat.id in H' by lia. apply H'; lia.
Qed.

(** What one entry of the table says. *)
Lemma table_triple (i k j : Z) :
  (0 <= i)%Z -> (i <= k <= j)%Z -> (j <= 255)%Z ->
  let C := channel in
  let V := fun n => channel n / 255 in
  returns_given (V j) (V i) (C j) (C k) (C i) = true
  /\ returns_given (V j) (V i) (C j) (C i) (C k) = true
  /\ returns_given (V j) (V i) (C k) (C j) (C i) = true
  /\ returns_given (V j) (V i) (C i) (C j) (C k) = true
  /\ returns_given (V j) (V i) (C k) (C i) (C j) = true
  /\ returns_given (V j) (V i) (C i) (C k) (C j) = true.
Proof.
  intros Hi Hk Hj C V. pose proof (table_entry i k j Hi Hk Hj) as H.
  unfold pair_ok, entry in H. cbv zeta in H. cbn [forallb] in H.
  rewrite andb_true_r in H.
  apply andb_true_iff in H as [_ H].
  apply andb_true_iff in H as [H H6].
  apply andb_true_iff in H as [H H5].
  apply andb_true_iff in H as [H H4].
  apply andb_true_iff in H as [H H3].
  apply andb_true_iff in H as [H1 H2].
  unfold returns_given, C, V. cbv zeta.
  split; [exact H1 |]. split; [exact H2 |]. split; [exact H3 |].
  split; [exact H4 |]. split; [exact H5 | exact H6].
Qed.

Lemma table_ordered (i j : Z) :
  (0 <= i)%Z -> (i <= j)%Z -> (j <= 255)%Z ->
  let V := fun n => channel n / 255 in
  JS.Math_max (V i) (V j) = V j /\ JS.Math_max (V j) (V i) = V j
  /\ JS.Math_min (V i) (V j) = V i /\ JS.Math_min (V j) (V i) = V i.
Proof.
  intros Hi Hij Hj V.
  assert (Hk : (i <= i <= j)%Z) by lia.
  pose proof (table_entry i i j Hi Hk Hj) as H.
  unfold pair_ok, entry in H. cbv zeta in H.
  apply andb_true_iff in H as [H _]. unfold ordered in H.
  apply andb_true_iff in H as [H H4].
  apply andb_true_iff in H as [H H3].
  apply andb_true_iff in H as [H1 H2].
  apply FloatAxioms.Leibniz.eqb_spec in H1, H2, H3, H4.
  unfold V. auto.
Qed.

(** On normalised channels [Math.max] and [Math.min] follow the integers. *)
Lemma Math_max_channels (x y : Z) :
  (0 <= x <= 255)%Z -> (0 <= y <= 255)%Z ->
  JS.Math_max (channel x / 255) (channel y / 255) = channel (Z.max x y) / 255.
Proof.
  intros Hx Hy. destruct (Z.le_ge_cases x y) as [H | H].
  - rewrite (Z.max_r x y H). apply (table_ordered x y); lia.
  - rewrite (Z.max_l x y H). apply (table_ordered y x); lia.
Qed.

Lemma Math_min_channels (x y : Z) :
  (0 <= x <= 255)%Z -> (0 <= y <= 255)%Z ->
  JS.Math_min (channel x / 255) (channel y / 255) = channel (Z.min x y) / 255.
Proof.
  intros Hx Hy. destruct (Z.le_ge_cases x y) as [H | H].
  - rewrite (Z.min_l x y H). apply (table_ordered x y); lia.
  - rewrite (Z.min_r x y H). apply (table_ordered y x); lia.
Qed.

(** [hsvToRgb], read off sector by sector. *)
Lemma hsvToRgb_sectors (h s v a X Y Z : float) :
  (let c := hsvToRgb (Hsv.mk h s v a) in
   PrimFloat.Leibniz.eqb (Rgb.r c) X && PrimFloat.Leibniz.eqb (Rgb.g c) Y
   && PrimFloat.Leibniz.eqb (Rgb.b c) Z)
  = sector_check (v * s) (v - v * s)
                 (JS.Math_round ((v * s + (v - v * s)) * 255))
                 (JS.Math_round ((0 + (v - v * s)) * 255)) h X Y Z.
Proof.
  unfold hsvToRgb, sector_check. cbn [Hsv.h Hsv.s Hsv.v Hsv.a]. cbv zeta.
  repeat match goal with
         | |- context [if ?b then (_, _, _) else _] => destruct b
         end; reflexivity.
Qed.

Lemma returns_unfold (X Y Z : float) :
  returns X Y Z
  = returns_given (JS.Math_max3 (X / 255) (Y / 255) (Z / 255))
                  (JS.Math_min3 (X / 255) (Y / 255) (Z / 255)) X Y Z.
Proof.
  unfold returns, returns_given, perm_ok. cbv zeta.
  rewrite <- hsvToRgb_sectors with (a := 1). reflexivity.
Qed.

Lemma returns_channels (x y z : Z) :
  (0 <= x <= 255)%Z -> (0 <= y <= 255)%Z -> (0 <= z <= 255)%Z ->
  returns (channel x) (channel y) (channel z) = true.
Proof.
  intros Hx Hy Hz. rewrite returns_unfold. unfold JS.Math_max3, JS.Math_min3.
  rewrite !Math_max_channels, !Math_min_channels by lia.
  destruct (Z.le_ge_cases x y) as [Hxy | Hxy];
    destruct (Z.le_ge_cases y z) as [Hyz | Hyz];
    destruct (Z.le_ge_cases x z) as [Hxz | Hxz].
  - replace (Z.max (Z.max x y) z) with z by lia.
    replace (Z.min (Z.min x y) z) with x by lia.
    apply (table_triple x y z); lia.
  - replace (Z.max (Z.max x y) z) with z by lia.
    replace (Z.min (Z.min x y) z) with x by lia.
    apply (table_triple x y z); lia.
  - replace (Z.max (Z.max x y) z) with y by lia.
    replace (Z.min (Z.min x y) z) with x by lia.
    apply (table_triple x z y); lia.
  - replace (Z.max (Z.max x y) z) with y by lia.
    replace (Z.min (Z.min x y) z) with z by lia.
    apply (table_triple z x y); lia.
  - replace (Z.max (Z.max x y) z) with z by lia.
    replace (Z.min (Z.min x y) z) with y by lia.
    apply (table_triple y x z); lia.
  - replace (Z.max (Z.max x y) z) with x by lia.
    replace (Z.min (Z.min x y) z) with y by lia.
    apply (table_triple y z x); lia.
  - replace (Z.max (Z.max x y) z) with x by lia.
    replace (Z.min (Z.min x y) z) with z by lia.
    apply (table_triple z y x); lia.
  - replace (Z.max (Z.max x y) z) with x by lia.
    replace (Z.min (Z.min x y) z) with z by lia.
    apply (table_triple z y x); lia.
Qed.

(** Alpha is carried along and takes no part in either conversion. *)
Lemma hsvToRgb_alpha (h s v a : float) :
  hsvToRgb (Hsv.mk h s v a)
  = Rgb.mk (Rgb.r (hsvToRgb (Hsv.mk h s v 1))) (Rgb.g (hsvToRgb (Hsv.mk h s v 1)))
           (Rgb.b (hsvToRgb (Hsv.mk h s v 1))) a.
Proof.
  unfold hsvToRgb. cbn [Hsv.h Hsv.s Hsv.v Hsv.a].
  repeat match goal with
         | |- context [if ?b then (_, _, _) else _] => destruct b
         end; reflexivity.
Qed.

Lemma rgbToHsv_alpha (x y z a : float) :
  rgbToHsv (Rgb.mk x y z a)
  = Hsv.mk (Hsv.h (rgbToHsv (Rgb.mk x y z 1))) (Hsv.s (rgbToHsv (Rgb.mk x y z 1)))
           (Hsv.v (rgbToHsv (Rgb.mk x y z 1))) a.
Proof. reflexivity. Qed.

Lemma returns_eq (x y z a : float) :
  returns x y z = true -> hsvToRgb (rgbToHsv (Rgb.mk x y z a)) = Rgb.mk x y z a.
Proof.
  unfold returns. intros H.
  apply andb_true_iff in H as [H Hz].
  apply andb_true_iff in H as [Hx Hy].
  apply FloatAxioms.Leibniz.eqb_spec in Hx, Hy, Hz.
  rewrite rgbToHsv_alpha, hsvToRgb_alpha.
  rewrite (rgbToHsv_alpha x y z 1) in Hx, Hy, Hz.
  rewrite Hx, Hy, Hz. reflexivity.
Qed.

(** C2. For integer channels of [0, 255] and any alpha,
    [hsvToRgb(rgbToHsv(rgb))] is [rgb]: the three channels come back
    exactly and the alpha is passed through. *)
Theorem hsv_roundtrip (nr ng nb : Z) (a : float) :
  (0 <= nr <= 255)%Z -> (0 <= ng <= 255)%Z -> (0 <= nb <= 255)%Z ->
  hsvToRgb (rgbToHsv (Rgb.mk (channel nr) (channel ng) (channel nb) a))
  = Rgb.mk (channel nr) (channel ng) (channel nb) a.
Proof.
  intros Hr Hg Hb. apply returns_eq, returns_channels; assumption.
Qed.

End RoundTrip.

(** Without an entry under its cache key, every input on which
    [parseToRgb] gives no result is parsed to opaque black: an
    unrecognised object always, a string when its normalised text is not a
    key of the cache. *)
Theorem parseColor_falls_back_to_black (cache : gmap string ColorValue) :
  (parseColor env cache InOther).1 = colorValueOf env opaque_black
  /\ (forall s, parseToRgb env (InString s) = None ->
                cache !! JS.trim (JS.toLowerCase s) = None ->
                (parseColor env cache (InString s)).1 = colorValueOf env opaque_black)
  /\ (forall input, parseToRgb env input = None ->
                    (parseColor env ∅ input).1 = colorValueOf env opaque_black).
Proof.
  repeat split.
  - intros s Hnone Hmiss. apply parseColor_fallback; [exact Hnone |].
    intros s' [= <-]. exact Hmiss.
  - intros input Hnone. apply parseColor_fallback; [exact Hnone |].
    intros s' _. apply lookup_empty.
Qed.

End CodecClaims.

(* ================================================================== *)
(** * More of the code *)
(* ================================================================== *)

(** ** Comparing numbers *)

Section FloatOrder.

Local Open Scope float_scope.

Lemma SFcompare_antisym (a b : spec_float) :
  SFcompare b a = option_map CompOpp (SFcompare a b).
Proof.
  destruct a as [sa | sa | | sa ma ea], b as [sb | sb | | sb mb eb]; cbn;
    try reflexivity;
    try (destruct sa; reflexivity); try (destruct sb; reflexivity);
    try (destruct sa, sb; reflexivity).
  assert (Hm : Pos.compare_cont Eq mb ma = CompOpp (Pos.compare_cont Eq ma mb))
    by (rewrite Pos.compare_cont_antisym; reflexivity).
  destruct sa, sb; cbn; try reflexivity;
    rewrite (Z.compare_antisym ea eb); destruct (ea ?= eb)%Z; cbn; try reflexivity;
    rewrite Hm; destruct (Pos.compare_cont Eq ma mb); reflexivity.
Qed.

Lemma SFcompare_refl (a : spec_float) :
  a <> S754_nan -> SFcompare a a = Some Eq.
Proof.
  destruct a as [sa | sa | | sa ma ea]; cbn; intros H; try congruence.
  - destruct sa; reflexivity.
  - rewrite Z.compare_refl, Pos.compare_cont_refl. destruct sa; reflexivity.
Qed.

Lemma SFcompare_some (a b : spec_float) (c : comparison) :
  SFcompare a b = Some c -> a <> S754_nan /\ b <> S754_nan.
Proof. destruct a, b; cbn; intros H; split; congruence. Qed.

Lemma SFcompare_none (a b : spec_float) :
  SFcompare a b = None -> a = S754_nan \/ b = S754_nan.
Proof. destruct a, b; cbn; intros H; try discriminate; auto. Qed.

Lemma is_nan_false (x : float) : Prim2SF x <> S754_nan -> is_nan x = false.
Proof.
  intros H. unfold is_nan. rewrite FloatAxioms.eqb_spec. unfold SFeqb.
  rewrite (SFcompare_refl _ H). reflexivity.
Qed.

Lemma is_nan_true (x : float) : Prim2SF x = S754_nan -> is_nan x = true.
Proof.
  intros H. unfold is_nan. rewrite FloatAxioms.eqb_spec, H. reflexivity.
Qed.

Lemma is_nan_spec (x : float) : is_nan x = true -> Prim2SF x = S754_nan.
Proof.
  unfold is_nan. rewrite FloatAxioms.eqb_spec. unfold SFeqb. intros H.
  destruct (Prim2SF x) eqn:Hx; try reflexivity;
    rewrite SFcompare_refl in H by discriminate; discriminate H.
Qed.

Lemma float_order_cases (x y : float) : float_order x y.
Proof.
  pose proof (SFcompare_antisym (Prim2SF x) (Prim2SF y)) as Hyx.
  destruct (SFcompare (Prim2SF x) (Prim2SF y)) as [c |] eqn:Hxy.
  - destruct (SFcompare_some _ _ _ Hxy) as [Hx Hy].
    apply is_nan_false in Hx, Hy.
    destruct c; [apply order_eq | apply order_lt | apply order_gt];
      rewrite ?FloatAxioms.ltb_spec, ?FloatAxioms.leb_spec, ?FloatAxioms.eqb_spec;
      unfold SFltb, SFleb, SFeqb; rewrite ?Hxy, ?Hyx; try reflexivity; assumption.
  - apply order_none;
      rewrite ?FloatAxioms.ltb_spec, ?FloatAxioms.leb_spec, ?FloatAxioms.eqb_spec;
      unfold SFltb, SFleb, SFeqb; rewrite ?Hxy, ?Hyx; try reflexivity.
    destruct (SFcompare_none _ _ Hxy) as [H | H]; [left | right];
      apply is_nan_true; exact H.
Qed.

Lemma leb_refl (x : float) : is_nan x = false -> (x <=? x) = true.
Proof.
  intros H. destruct (float_order_cases x x) as [| | | ? ? ? ? ? ? [Hn | Hn]];
    try assumption; congruence.
Qed.

(** A clamp between [lo < hi] of anything but [NaN] is between them. *)
Lemma clamp_to_range (lo hi v : float) :
  (lo <? hi) = true -> is_nan v = false ->
  (lo <=? clamp_to lo hi v) = true /\ (clamp_to lo hi v <=? hi) = true.
Proof.
  intros Hlh Hv. unfold clamp_to.
  destruct (float_order_cases lo hi) as [L1 L2 L3 L4 L5 L6 Nlo Nhi | | |]; try congruence.
  pose proof (leb_refl lo Nlo) as Rlo. pose proof (leb_refl hi Nhi) as Rhi.
  assert (Hhi : (lo <=? JS.Math_max lo hi) = true /\ (JS.Math_max lo hi <=? hi) = true).
  { unfold JS.Math_max. rewrite L1. auto. }
  assert (Hmid : (v <=? hi) = true ->
                 (lo <=? JS.Math_max lo v) = true /\ (JS.Math_max lo v <=? hi) = true).
  { intros Hle. unfold JS.Math_max.
    destruct (float_order_cases lo v) as [M1 M2 M3 M4 M5 M6 _ _ | M1 M2 M3 M4 M5 M6 _ _
                                         | M1 M2 M3 M4 M5 M6 _ _ | M1 M2 M3 M4 M5 M6 [N | N]];
      rewrite ?M1, ?M4, ?M3; try congruence; auto.
    destruct (PrimFloat.is_zero lo); [destruct (get_sign lo) |]; auto. }
  unfold JS.Math_min at 1 2.
  destruct (float_order_cases hi v) as [M1 M2 M3 M4 M5 M6 _ _ | M1 M2 M3 M4 M5 M6 _ _
                                       | M1 M2 M3 M4 M5 M6 _ _ | M1 M2 M3 M4 M5 M6 [N | N]];
    rewrite ?M1, ?M4, ?M3; try congruence; auto.
  destruct (PrimFloat.is_zero hi); [destruct (get_sign hi) |]; auto.
Qed.

(** A clamp of [NaN] is [NaN]. *)
Lemma clamp_to_nan (lo hi v : float) :
  is_nan v = true -> is_nan (clamp_to lo hi v) = true.
Proof.
  intros Hv. unfold clamp_to.
  assert (Hmin : JS.Math_min hi v = nan).
  { unfold JS.Math_min.
    destruct (float_order_cases hi v) as [? ? ? ? ? ? ? N | ? ? ? ? ? ? ? N
                                         | ? ? ? ? ? ? ? N | M1 M2 M3 M4 M5 M6 _];
      try congruence. rewrite M1, M4, M3. reflexivity. }
  rewrite Hmin. unfold JS.Math_max.
  destruct (float_order_cases lo nan) as [? ? ? ? ? ? ? N | ? ? ? ? ? ? ? N
                                         | ? ? ? ? ? ? ? N | M1 M2 M3 M4 M5 M6 _];
    try (vm_compute in N; congruence). rewrite M1, M4, M3. reflexivity.
Qed.

Lemma clamp_to_within (lo hi v : float) :
  (lo <? hi) = true ->
  (is_nan v = false -> within lo hi (clamp_to lo hi v))
  /\ (is_nan v = true -> is_nan (clamp_to lo hi v) = true)
  /\ (is_nan (clamp_to lo hi v) = false -> within lo hi (clamp_to lo hi v)).
Proof.
  intros Hlh. split; [| split].
  - intros Hv. apply clamp_to_range; assumption.
  - apply clamp_to_nan.
  - intros Hr. destruct (is_nan v) eqn:Hv.
    + rewrite clamp_to_nan in Hr by exact Hv. discriminate.
    + apply clamp_to_range; assumption.
Qed.

Lemma Math_round_nan (x : float) : is_nan x = true -> JS.Math_round x = x.
Proof.
  intros H. unfold JS.Math_round.
  rewrite FloatAxioms.ltb_spec, FloatAxioms.abs_spec, (is_nan_spec x H). reflexivity.
Qed.

Lemma abs_nonneg_ltb (h y : float) :
  (0 <=? h) = true -> (abs h <? y) = (h <? y).
Proof.
  rewrite FloatAxioms.leb_spec, !FloatAxioms.ltb_spec, FloatAxioms.abs_spec.
  change (Prim2SF 0) with (S754_zero false).
  destruct (Prim2SF h) as [s | s | | s m e]; try destruct s; cbn;
    try discriminate; reflexivity.
Qed.

(** Below the modulus a non-negative number is its own remainder. *)
Lemma rem_below (h y : float) :
  (0 <=? h) = true -> (h <? abs y) = true -> JS.rem h y = h.
Proof.
  intros H0 Hy. unfold JS.rem. cbv zeta.
  rewrite (abs_nonneg_ltb h (abs y) H0), Hy. reflexivity.
Qed.

End FloatOrder.

(** ** Ranges of what the components compute *)

Section Clamps.

Variable env : Platform.

Local Open Scope float_scope.

(** X9. ColorPickerArea: a [change] is emitted only for an element with a
    width and a height, and each coordinate it carries is in [0, 1],
    unless it is [NaN]. *)
Theorem framePosition_range (elementX elementY w h x y : float) :
  ColorPickerArea.framePosition elementX elementY w h = Some (x, y) ->
  truthy_number w = true /\ truthy_number h = true
  /\ x = clamp_to 0 1 (elementX / w) /\ y = clamp_to 0 1 (elementY / h)
  /\ (is_nan x = false -> within 0 1 x) /\ (is_nan y = false -> within 0 1 y).
Proof.
  unfold ColorPickerArea.framePosition. cbv zeta.
  destruct (truthy_number w); [| discriminate].
  destruct (truthy_number h); [| discriminate].
  cbn [andb]. intros [= <- <-].
  destruct (clamp_to_within 0 1 (elementX / w) eq_refl) as (_ & _ & X3).
  destruct (clamp_to_within 0 1 (elementY / h) eq_refl) as (_ & _ & Y3).
  split; [reflexivity |]. split; [reflexivity |].
  split; [reflexivity |]. split; [reflexivity |]. split; [exact X3 | exact Y3].
Qed.

(** X12. The tracked hue after a [setHsv] that carries a hue is in
    [0, 360], unless it is [NaN]; a [NaN] hue stays [NaN]. *)
Theorem setHsv_hue_range (st : Picker) (u : HsvUpdate.t) (h : float) :
  HsvUpdate.h u = Some h ->
  let hue := Hsv.h (hsvRef (updateHsv env u st)) in
  (is_nan hue = false -> within 0 360 hue)
  /\ (is_nan h = true -> is_nan hue = true).
Proof.
  intros Hh hue. subst hue. rewrite updateHsv_hsvRef, Hh. cbn [Hsv.h].
  destruct (clamp_to_within 0 360 (JS.Math_round h) eq_refl) as (_ & C2 & C3).
  split; [exact C3 |]. intros Hn. apply C2. rewrite Math_round_nan; assumption.
Qed.

(** X10. ColorPickerSaturation: a drag sets saturation and value within
    [0, 1] (unless [NaN]) and leaves hue, alpha and preview alone. *)
Theorem saturation_drag (st : Picker) (elementX elementY w h : float) (u : HsvUpdate.t) :
  ColorPickerSaturation.frameUpdate elementX elementY w h = Some u ->
  let st' := updateHsv env u st in
  (is_nan (Hsv.s (hsvRef st')) = false -> within 0 1 (Hsv.s (hsvRef st')))
  /\ (is_nan (Hsv.v (hsvRef st')) = false -> within 0 1 (Hsv.v (hsvRef st')))
  /\ Hsv.h (hsvRef st') = Hsv.h (hsvRef st)
  /\ Hsv.a (hsvRef st') = Hsv.a (hsvRef st)
  /\ previewColorRef st' = previewColorRef st.
Proof.
  unfold ColorPickerSaturation.frameUpdate. cbv zeta.
  destruct (truthy_number w && truthy_number h); [| discriminate].
  intros [= <-]. rewrite updateHsv_hsvRef. cbn.
  destruct (clamp_to_within 0 1 (elementX / w) eq_refl) as (_ & _ & S3).
  destruct (clamp_to_within 0 1 (1 - elementY / h) eq_refl) as (_ & _ & V3).
  split; [exact S3 |]. split; [exact V3 |]. split; [reflexivity |].
  split; [reflexivity |].
  unfold updateHsv. cbn. rewrite !parseColor_hsv. reflexivity.
Qed.

(** X22. [ColorPicker.vue]: a [change] of the hue area moves the tracked
    hue only, into [0, 360]; a [change] of the saturation area sets
    saturation and value from the point and leaves hue, alpha and preview. *)
Theorem area_change (st : Picker) (elementX elementY w h : float) (p : float * float) :
  ColorPickerArea.framePosition elementX elementY w h = Some p ->
  let st1 := updateHsv env (ColorPicker.hueChange p) st in
  let st2 := updateHsv env (ColorPicker.saturationChange p) st in
  ((is_nan (Hsv.h (hsvRef st1)) = false -> within 0 360 (Hsv.h (hsvRef st1)))
   /\ Hsv.s (hsvRef st1) = Hsv.s (hsvRef st)
   /\ Hsv.v (hsvRef st1) = Hsv.v (hsvRef st)
   /\ Hsv.a (hsvRef st1) = Hsv.a (hsvRef st))
  /\ (Hsv.s (hsvRef st2) = p.1
      /\ (is_nan p.1 = false -> within 0 1 (Hsv.s (hsvRef st2)))
      /\ Hsv.v (hsvRef st2) = 1 - p.2
      /\ Hsv.h (hsvRef st2) = Hsv.h (hsvRef st)
      /\ Hsv.a (hsvRef st2) = Hsv.a (hsvRef st)
      /\ previewColorRef st2 = previewColorRef st).
Proof.
  unfold ColorPickerArea.framePosition. cbv zeta.
  destruct (truthy_number w && truthy_number h); [| discriminate].
  intros [= <-]. cbn [ColorPicker.hueChange ColorPicker.saturationChange fst snd].
  rewrite !updateHsv_hsvRef. cbn.
  destruct (clamp_to_within 0 360 (JS.Math_round (ColorPickerArea.clamp (elementX / w) 0 1 * 360))
              eq_refl) as (_ & _ & H3).
  destruct (clamp_to_within 0 1 (elementX / w) eq_refl) as (_ & _ & S3).
  split.
  - split; [exact H3 |]. auto.
  - split; [reflexivity |]. split; [exact S3 |]. split; [reflexivity |].
    split; [reflexivity |]. split; [reflexivity |].
    unfold updateHsv. cbn. rewrite !parseColor_hsv. reflexivity.
Qed.

(** X11. LayerControlPoint: a dragged point stays within the parent, each
    coordinate in [0, 100] percent unless it is [NaN]. *)
Theorem pointerMove_range (s : LayerControlPoint.Start) (clientX clientY : float) :
  let '(newX, newY) := LayerControlPoint.pointerMove s clientX clientY in
  (is_nan newX = false -> within 0 100 newX)
  /\ (is_nan newY = false -> within 0 100 newY).
Proof.
  unfold LayerControlPoint.pointerMove. cbv zeta.
  split; apply (clamp_to_within 0 100 _ eq_refl).
Qed.

(** X13. [oklchToRgb]: whatever the engine's [Math] answers, each channel
    is in [0, 255] or [NaN], and alpha goes through. *)
Theorem oklchToRgb_range (c : OklchColor) :
  let rgb := oklchToRgb env c in
  (is_nan (Rgb.r rgb) = false -> within 0 255 (Rgb.r rgb))
  /\ (is_nan (Rgb.g rgb) = false -> within 0 255 (Rgb.g rgb))
  /\ (is_nan (Rgb.b rgb) = false -> within 0 255 (Rgb.b rgb))
  /\ Rgb.a rgb = Oklch.a c.
Proof.
  unfold oklchToRgb. cbv zeta. cbn [Rgb.r Rgb.g Rgb.b Rgb.a].
  unfold linearToSRgb. cbv zeta.
  split; [apply (clamp_to_within 0 255 _ eq_refl) |].
  split; [apply (clamp_to_within 0 255 _ eq_refl) |].
  split; [apply (clamp_to_within 0 255 _ eq_refl) |].
  destruct c; reflexivity.
Qed.

(** X18. For a hue of [0, 360) the two revisions of [hsvToRgb] agree; at
    360 the earlier one has left every sector (a grey of the offset) and
    the current one is back at 0. *)
Theorem hsvToRgb_revisions (h s v a : float) :
  ((0 <=? h) = true -> (h <? 360) = true ->
   hsvToRgb (Hsv.mk h s v a) = Legacy.hsvToRgb (Hsv.mk h s v a))
  /\ hsvToRgb (Hsv.mk 360 s v a) = hsvToRgb (Hsv.mk 0 s v a)
  /\ Legacy.hsvToRgb (Hsv.mk 360 s v a)
     = (let m := JS.Math_round ((0 + (v - v * s)) * 255) in Rgb.mk m m m a).
Proof.
  split; [| split].
  - intros H0 H360. unfold hsvToRgb, Legacy.hsvToRgb. cbn [Hsv.h Hsv.s Hsv.v Hsv.a].
    rewrite (rem_below h 360 H0 H360). cbv zeta.
    destruct (float_order_cases 0 h) as [? ? ? L ? ? ? ? | ? ? ? L ? ? ? ? | ? ? ? ? ? ? ? ?
                                        | ? ? ? ? ? ? ?]; try congruence;
      rewrite L; reflexivity.
  - reflexivity.
  - reflexivity.
Qed.

Lemma ordered_pairs_spec (f : Entry -> Entry -> bool) (g : nat -> Entry) (n : nat) :
  forall a : nat,
    ordered_pairs f (map g (seq a n)) = true ->
    forall i j : nat, (a <= i <= j)%nat -> (j < a + n)%nat -> f (g i) (g j) = true.
Proof.
  induction n as [| n IH]; intros a H i j Hi Hj; [lia |].
  change (ordered_pairs f (map g (seq a (S n))))
    with (forallb (f (g a)) (map g (seq a (S n))) && ordered_pairs f (map g (seq (S a) n)))
    in H.
  apply andb_true_iff in H as [Hhere Hrest].
  destruct (Nat.eq_dec i a) as [-> | Hne].
  - apply (proj1 (forallb_forall _ _) Hhere). apply in_map, in_seq. lia.
  - apply (IH (S a) Hrest); lia.
Qed.

Lemma saturation_table : ordered_pairs saturation_ok entries = true.
Proof. vm_compute. reflexivity. Qed.

Lemma grey_table : forallb grey_ok (below 256) = true.
Proof. vm_compute. reflexivity. Qed.

Lemma saturation_entry (i j : Z) :
  (0 <= i <= j)%Z -> (j <= 255)%Z -> saturation_ok (entry i) (entry j) = true.
Proof.
  intros Hi Hj. pose proof saturation_table as H.
  unfold entries, below in H. rewrite map_map in H.
  pose proof (ordered_pairs_spec _ _ _ _ H (Z.to_nat i) (Z.to_nat j)) as H'.
  cbv beta in H'. rewrite !Z2Nat.id in H' by lia. apply H'; lia.
Qed.

(** X14. [rgbToHsv] on an 8-bit colour: the value is the largest channel
    over 255, saturation and value are in [0, 1], alpha goes through, and
    a grey has hue 0 and saturation 0. *)
Theorem rgbToHsv_range (nr ng nb : Z) (a : float) :
  (0 <= nr <= 255)%Z -> (0 <= ng <= 255)%Z -> (0 <= nb <= 255)%Z ->
  let hsv := rgbToHsv (Rgb.mk (channel nr) (channel ng) (channel nb) a) in
  within 0 1 (Hsv.s hsv) /\ within 0 1 (Hsv.v hsv)
  /\ Hsv.v hsv = channel (Z.max (Z.max nr ng) nb) / 255
  /\ Hsv.a hsv = a
  /\ (nr = ng -> ng = nb -> Hsv.h hsv = 0 /\ Hsv.s hsv = 0).
Proof.
  intros Hr Hg Hb hsv.
  pose proof (saturation_entry (Z.min (Z.min nr ng) nb) (Z.max (Z.max nr ng) nb)
                ltac:(lia) ltac:(lia)) as T.
  unfold saturation_ok, entry, unit_interval in T. cbn [snd] in T. cbv zeta in T.
  apply andb_true_iff in T as [Ts Tv].
  apply andb_true_iff in Ts as [Ts1 Ts2]. apply andb_true_iff in Tv as [Tv1 Tv2].
  assert (Hv : Hsv.v hsv = channel (Z.max (Z.max nr ng) nb) / 255).
  { subst hsv. unfold rgbToHsv. cbn [Rgb.r Rgb.g Rgb.b Rgb.a Hsv.v]. cbv zeta.
    unfold JS.Math_max3. rewrite !Math_max_channels by lia. reflexivity. }
  assert (Hs : Hsv.s hsv
               = let vM := channel (Z.max (Z.max nr ng) nb) / 255 in
                 let vm := channel (Z.min (Z.min nr ng) nb) / 255 in
                 if JS.strict_eq vM 0 then 0 else (vM - vm) / vM).
  { subst hsv. unfold rgbToHsv. cbn [Rgb.r Rgb.g Rgb.b Rgb.a Hsv.s]. cbv zeta.
    unfold JS.Math_max3, JS.Math_min3.
    rewrite !Math_max_channels, !Math_min_channels by lia. reflexivity. }
  cbv zeta in Hs.
  split; [rewrite Hs; split; assumption |].
  split; [rewrite Hv; split; assumption |].
  split; [exact Hv |]. split; [reflexivity |].
  intros -> ->. subst hsv. rewrite rgbToHsv_alpha. cbn [Hsv.h Hsv.s].
  pose proof (proj1 (forallb_forall _ _) grey_table nb (in_below 256 nb ltac:(lia))) as G.
  unfold grey_ok in G. cbv zeta in G. apply andb_true_iff in G as [G1 G2].
  apply FloatAxioms.Leibniz.eqb_spec in G1, G2. auto.
Qed.

End Clamps.

(** ** More about the picker *)

Section PickerMore.

Variable env : Platform.

Lemma guard_pending_step (st : Picker) (e : Event) :
  guard_pending st -> guard_pending (step env st e).
Proof.
  unfold guard_pending. intros Hinv. destruct e as [u | c | c | c |]; cbn [step].
  - intros _. apply updateHsv_flags.
  - exact Hinv.
  - exact Hinv.
  - exact Hinv.
  - unfold flush, watchColor. cbn.
    destruct (watcherQueued st), (isInternalUpdate st) eqn:Hg; cbn;
      try rewrite Hg; try (rewrite Hinv by reflexivity); cbn; try discriminate;
      destruct (resetQueued st); cbn; discriminate.
Qed.

Lemma guard_pending_run (es : list Event) (st : Picker) :
  guard_pending st -> guard_pending (run env st es).
Proof.
  induction es as [| e es IH] in st |- *; intros Hinv; [exact Hinv |].
  rewrite run_cons. apply IH, guard_pending_step, Hinv.
Qed.

Lemma guard_pending_setup (cache : gmap string ColorValue) (initial : ColorValue) :
  guard_pending (setup env cache initial).
Proof. unfold guard_pending, setup. rewrite parseColor_hsv. cbn. discriminate. Qed.

(** X17. Whatever happened during a tick, the picker is idle when it
    ends: the guard is down and nothing is queued. *)
Theorem tick_ends_idle (cache : gmap string ColorValue) (initial : ColorValue)
    (es : list Event) :
  let st := run env (setup env cache initial) (es ++ [Flush]) in
  isInternalUpdate st = false /\ watcherQueued st = false /\ resetQueued st = false.
Proof.
  intros st. subst st. rewrite run_app.
  pose proof (guard_pending_run es _ (guard_pending_setup cache initial)) as Hinv.
  set (st := run env (setup env cache initial) es) in *.
  cbn [run fold_left step]. split; [| split; reflexivity].
  unfold guard_pending in Hinv. unfold flush, watchColor. cbn.
  destruct (watcherQueued st), (isInternalUpdate st) eqn:Hg; cbn;
    try rewrite Hg; try (rewrite Hinv by reflexivity); cbn; try reflexivity;
    destruct (resetQueued st); reflexivity.
Qed.

(** X15. Writes to the model in the tick of a [setHsv] never reach the
    tracked HSV: the observer finds the guard up. *)
Theorem same_tick_writes_unobserved (st : Picker) (u : HsvUpdate.t)
    (cs : list ColorValue) :
  let st1 := updateHsv env u st in
  let st' := run env st (SetHsv u :: map WriteModel cs ++ [Flush]) in
  hsvRef st' = hsvRef st1
  /\ previewColorRef st' = previewColorRef st1
  /\ color st' = default (color st1) (last cs)
  /\ isInternalUpdate st' = false.
Proof.
  intros st1 st'. subst st'. rewrite run_cons. cbn [step]. fold st1.
  rewrite run_app.
  destruct (writes_keep env cs st1) as (H1 & H2 & H3 & H4 & H5).
  set (st2 := run env st1 (map WriteModel cs)) in *.
  destruct (updateHsv_flags env u st) as (G1 & G2 & G3). fold st1 in G1, G2, G3.
  cbn [run fold_left step].
  rewrite flush_guarded by congruence. rewrite flush_preview.
  split; [exact H1 |]. split; [exact H2 |].
  unfold flush, watchColor. rewrite H3, G1.
  destruct (watcherQueued st2); cbn; rewrite H4, G3; auto.
Qed.

(** X16. [setColor] installs the colour's own HSV, grey or not, and the
    observer that follows leaves it. *)
Theorem setColor_tracks (st : Picker) (c : ColorValue) (n : nat) :
  let st' := run env st (SetColor c :: repeat Flush n) in
  hsvRef st' = hsv c /\ color st' = c.
Proof.
  intros st'. subst st'. rewrite run_cons. cbn [step].
  assert (Hflush : forall s, hsvRef s = hsv (color s) ->
                             hsvRef (flush s) = hsv (color s) /\ color (flush s) = color s).
  { intros s Hs. unfold flush, watchColor.
    destruct (watcherQueued s), (isInternalUpdate s); cbn; auto.
    rewrite Hs. destruct (hsv (color s)) as [h sat v a]. cbn.
    destruct (_ && _); auto. }
  assert (Hrun : forall s, hsvRef s = hsv (color s) ->
                           hsvRef (run env s (repeat Flush n)) = hsv (color s)
                           /\ color (run env s (repeat Flush n)) = color s).
  { induction n as [| k IH]; intros s Hs; [cbn; auto |].
    cbn [repeat]. rewrite run_cons. cbn [step].
    destruct (Hflush s Hs) as [F1 F2].
    destruct (IH (flush s)) as [I1 I2]; [congruence |].
    rewrite I1, I2, F2. auto. }
  apply (Hrun (setColor c st)). reflexivity.
Qed.

End PickerMore.

(** ** The cache of parseColor *)

Section Cache.

Variable env : Platform.

Lemma rgbToHex_hash (c : RgbColor) : exists t, rgbToHex env c = String "#" t.
Proof. rewrite rgbToHex_unfold. eexists. reflexivity. Qed.

(** X2. Asking [parseColor] again, with the cache the first call left,
    gives the same answer and leaves the cache as it is. *)
Theorem parseColor_repeat (cache : gmap string ColorValue) (input : ColorInput) :
  parseColor env (parseColor env cache input).2 input = parseColor env cache input.
Proof.
  unfold parseColor.
  destruct (if is_object input && has_property "hex" input && has_property "rgb" input
            then as_value input else None) as [value |] eqn:Hvalue.
  { cbn [snd]. reflexivity. }
  destruct (cacheKeyOf env input ≫= (fun key => cache !! key)) as [cached |] eqn:Hhit.
  { cbn [snd]. rewrite Hhit. reflexivity. }
  cbv zeta. cbn [snd].
  set (r := colorValueOf env (default opaque_black (parseToRgb env input))).
  destruct (rgbToHex_hash (default opaque_black (parseToRgb env input))) as [t Ht].
  assert (Hhex : hex r = String "#" t) by exact Ht.
  destruct (cacheKeyOf env input) as [key |]; cbn [mbind option_bind] in *.
  - destruct (JS.truthy key) eqn:Hkey.
    + assert (Hfound : (<[hex r := r]> (<[key := r]> cache)) !! key = Some r).
      { destruct (decide (hex r = key)) as [-> | Hne].
        - apply lookup_insert_eq.
        - rewrite lookup_insert_ne by exact Hne. apply lookup_insert_eq. }
      rewrite Hfound. reflexivity.
    + destruct key as [| c k]; [| discriminate Hkey].
      rewrite lookup_insert_ne by (rewrite Hhex; discriminate).
      rewrite Hhit. rewrite insert_insert_eq. reflexivity.
  - rewrite insert_insert_eq. reflexivity.
Qed.

End Cache.

(** ** The patterns *)

Section RegexFacts.

Import JS.

Lemma rmatch_Rep_Class (p : ascii -> bool) (n : nat) :
  forall (s : list ascii) (cs : captures) (k : list ascii -> captures -> option captures),
    rmatch (Rep n (Class p)) s cs k
    = if (n <=? List.length s)%nat && forallb p (firstn n s)
      then k (skipn n s) cs else None.
Proof.
  induction n as [| n IH]; intros s cs k.
  - reflexivity.
  - destruct s as [| x s']; [reflexivity |].
    cbn [Rep rmatch]. destruct (p x) eqn:Hp.
    + rewrite IH. cbn [List.length firstn forallb skipn]. rewrite Hp.
      reflexivity.
    + cbn [List.length firstn forallb skipn]. rewrite Hp.
      rewrite andb_false_r. reflexivity.
Qed.

Lemma length_list_ascii (s : string) :
  List.length (list_ascii_of_string s) = String.length s.
Proof. induction s as [| c s IH]; cbn; congruence. Qed.

(** A repetition run against a continuation that accepts the end of the
    text only. *)
Lemma Rep_Class_anchored (p : ascii -> bool) (n : nat) (l : list ascii) (cs : captures)
    (k : list ascii -> captures -> option captures) :
  (forall x s' cs', k (x :: s') cs' = None) ->
  rmatch (Rep n (Class p)) l cs k
  = if (List.length l =? n)%nat && forallb p l then k [] cs else None.
Proof.
  intros Hk. rewrite rmatch_Rep_Class.
  destruct (Nat.lt_trichotomy (List.length l) n) as [Hlt | [Heq | Hgt]].
  - replace (n <=? List.length l)%nat with false by (symmetry; apply Nat.leb_gt; lia).
    replace (List.length l =? n)%nat with false by (symmetry; apply Nat.eqb_neq; lia).
    reflexivity.
  - subst n. rewrite Nat.leb_refl, Nat.eqb_refl, firstn_all, skipn_all. reflexivity.
  - replace (List.length l =? n)%nat with false by (symmetry; apply Nat.eqb_neq; lia).
    cbn [andb]. destruct (skipn n l) as [| x s'] eqn:Hs.
    + apply (f_equal (@List.length ascii)) in Hs. rewrite length_skipn in Hs.
      cbn in Hs. lia.
    + rewrite Hk. destruct (_ && _); reflexivity.
Qed.

(** [HEX_REGEX] accepts [#] and 3, 4, 6 or 8 hex digits, nothing else. *)
Lemma hex_text_shape (s : string) : isHexColorValid s = is_hex_text s.
Proof.
  unfold isHexColorValid, test, match_whole, HEX_REGEX, hexdigit.
  destruct s as [| c t]; [reflexivity |].
  cbn [list_ascii_of_string rmatch is_hex_text].
  destruct (Ascii.eqb c "#"); [| reflexivity].
  rewrite !Rep_Class_anchored by reflexivity.
  rewrite <- (length_list_ascii t).
  destruct (forallb is_hex_digit (list_ascii_of_string t));
    rewrite ?andb_false_r, ?andb_true_r; cbn [andb];
    destruct (List.length (list_ascii_of_string t) =? 8)%nat;
    destruct (List.length (list_ascii_of_string t) =? 6)%nat;
    destruct (List.length (list_ascii_of_string t) =? 4)%nat;
    destruct (List.length (list_ascii_of_string t) =? 3)%nat; reflexivity.
Qed.

Lemma hex_text_cases (s : string) :
  is_hex_text s = true ->
  (exists r g b, s = String "#" (String r (String g (String b "")))
                 /\ forallb is_hex_digit [r; g; b] = true)
  \/ (exists r g b a, s = String "#" (String r (String g (String b (String a ""))))
                      /\ forallb is_hex_digit [r; g; b; a] = true)
  \/ (exists r1 r2 g1 g2 b1 b2,
         s = String "#" (String r1 (String r2 (String g1 (String g2
               (String b1 (String b2 ""))))))
         /\ forallb is_hex_digit [r1; r2; g1; g2; b1; b2] = true)
  \/ (exists r1 r2 g1 g2 b1 b2 a1 a2,
         s = String "#" (String r1 (String r2 (String g1 (String g2
               (String b1 (String b2 (String a1 (String a2 ""))))))))
         /\ forallb is_hex_digit [r1; r2; g1; g2; b1; b2; a1; a2] = true).
Proof.
  destruct s as [| c t]; [discriminate |]. cbn [is_hex_text]. intros H.
  apply andb_true_iff in H as [H Hall]. apply andb_true_iff in H as [Hc Hlen].
  apply Ascii.eqb_eq in Hc. subst c.
  apply orb_true_iff in Hlen as [Hlen | H3].
  apply orb_true_iff in Hlen as [Hlen | H4].
  apply orb_true_iff in Hlen as [H8 | H6].
  - apply Nat.eqb_eq in H8. right. right. right.
    destruct t as [| r1 [| r2 [| g1 [| g2 [| b1 [| b2 [| a1 [| a2 [| ? ?]]]]]]]]];
      try discriminate H8. eauto 12.
  - apply Nat.eqb_eq in H6. right. right. left.
    destruct t as [| r1 [| r2 [| g1 [| g2 [| b1 [| b2 [| ? ?]]]]]]];
      try discriminate H6. eauto 10.
  - apply Nat.eqb_eq in H4. right. left.
    destruct t as [| r [| g [| b [| a [| ? ?]]]]]; try discriminate H4. eauto 10.
  - apply Nat.eqb_eq in H3. left.
    destruct t as [| r [| g [| b [| ? ?]]]]; try discriminate H3. eauto 10.
Qed.

(** X3. [isHexColorValid] accepts exactly the texts made of [#] and 3, 4,
    6 or 8 hex digits: nothing before or after, no other length. *)
Theorem isHexColorValid_forms (s : string) :
  isHexColorValid s = true
  <-> exists t : string,
        s = String "#" t
        /\ In (String.length t) [3; 4; 6; 8]%nat
        /\ Forall (fun c => is_hex_digit c = true) (list_ascii_of_string t).
Proof.
  rewrite hex_text_shape. split.
  - destruct s as [| c t]; [discriminate |]. cbn [is_hex_text]. intros H.
    apply andb_true_iff in H as [H Hall]. apply andb_true_iff in H as [Hc Hlen].
    apply Ascii.eqb_eq in Hc. subst c. exists t. split; [reflexivity |]. split.
    + repeat (apply orb_true_iff in Hlen as [Hlen | Hlen]);
        apply Nat.eqb_eq in Hlen; rewrite Hlen; cbn; auto.
    + apply List.Forall_forall. exact (proj1 (forallb_forall _ _) Hall).
  - intros (t & -> & Hlen & Hall). cbn [is_hex_text].
    rewrite Ascii.eqb_refl. cbn [andb].
    apply andb_true_iff. split.
    + cbn in Hlen. destruct Hlen as [<- | [<- | [<- | [<- | []]]]]; reflexivity.
    + apply forallb_forall. apply List.Forall_forall. exact Hall.
Qed.

Lemma rmatch_Star_Class (p : ascii -> bool) (s : list ascii) (cs : captures)
    (k : list ascii -> captures -> option captures) :
  rmatch (Star (Class p)) s cs k = star_loop p k (List.length s) s cs.
Proof. reflexivity. Qed.

Lemma star_loop_run (p : ascii -> bool) (k : list ascii -> captures -> option captures)
    (rest : list ascii) (cs res : captures) :
  stops p rest -> k rest cs = Some res ->
  forall (ds : list ascii) (fuel : nat),
    (List.length (ds ++ rest) <= fuel)%nat -> forallb p ds = true ->
    star_loop p k fuel (ds ++ rest) cs = Some res.
Proof.
  intros Hstop Hk ds. induction ds as [| d ds IH]; intros fuel Hfuel Hp.
  - cbn [app]. destruct fuel as [| fuel]; [exact Hk |].
    cbn [star_loop rmatch]. destruct rest as [| x rest']; [exact Hk |].
    cbn in Hstop. rewrite Hstop. exact Hk.
  - cbn [forallb] in Hp. apply andb_true_iff in Hp as [Hd Hp].
    destruct fuel as [| fuel]; [cbn in Hfuel; lia |].
    cbn [star_loop app rmatch]. rewrite Hd.
    replace (List.length (ds ++ rest) <? List.length (d :: ds ++ rest))%nat with true
      by (symmetry; apply Nat.ltb_lt; cbn; lia).
    fold (star_loop p k). rewrite IH; [reflexivity | cbn in Hfuel; lia | exact Hp].
Qed.

(** A greedy run: a repetition takes all of [ds] when what follows then
    succeeds. *)
Lemma rmatch_Star_run (p : ascii -> bool) (ds rest : list ascii) (cs res : captures)
    (k : list ascii -> captures -> option captures) :
  forallb p ds = true -> stops p rest -> k rest cs = Some res ->
  rmatch (Star (Class p)) (ds ++ rest) cs k = Some res.
Proof.
  intros Hp Hstop Hk. rewrite rmatch_Star_Class.
  apply star_loop_run; auto.
Qed.

Lemma rmatch_Plus_run (p : ascii -> bool) (d : ascii) (ds rest : list ascii)
    (cs res : captures) (k : list ascii -> captures -> option captures) :
  forallb p (d :: ds) = true -> stops p rest -> k rest cs = Some res ->
  rmatch (Plus (Class p)) ((d :: ds) ++ rest) cs k = Some res.
Proof.
  intros Hp Hstop Hk. cbn [forallb] in Hp. apply andb_true_iff in Hp as [Hd Hp].
  unfold Plus. change (rmatch (Cat (Class p) (Star (Class p))) ((d :: ds) ++ rest) cs k)
    with (if p d then rmatch (Star (Class p)) (ds ++ rest) cs k else None).
  rewrite Hd. apply rmatch_Star_run; assumption.
Qed.

Lemma rmatch_Group_run (i : nat) (p : ascii -> bool) (d : ascii) (ds rest : list ascii)
    (cs res : captures) (k : list ascii -> captures -> option captures) :
  forallb p (d :: ds) = true -> stops p rest ->
  k rest ((i, string_of_list_ascii (d :: ds)) :: cs) = Some res ->
  rmatch (Group i (Plus (Class p))) ((d :: ds) ++ rest) cs k = Some res.
Proof.
  intros Hp Hstop Hk.
  change (rmatch (Group i (Plus (Class p))) ((d :: ds) ++ rest) cs k)
    with (rmatch (Plus (Class p)) ((d :: ds) ++ rest) cs
            (fun s' cs' =>
               let taken := firstn (List.length ((d :: ds) ++ rest) - List.length s')
                                   ((d :: ds) ++ rest) in
               k s' ((i, string_of_list_ascii taken) :: cs'))).
  apply rmatch_Plus_run; [exact Hp | exact Hstop |].
  cbv zeta.
  replace (List.length ((d :: ds) ++ rest) - List.length rest)%nat
    with (List.length (d :: ds)) by (rewrite length_app; lia).
  rewrite firstn_app, Nat.sub_diag, firstn_all, firstn_O, app_nil_r. exact Hk.
Qed.

Lemma rmatch_Cat (r1 r2 : regex) (s : list ascii) (cs : captures)
    (k : list ascii -> captures -> option captures) :
  rmatch (Cat r1 r2) s cs k = rmatch r1 s cs (fun s' cs' => rmatch r2 s' cs' k).
Proof. reflexivity. Qed.

Lemma rmatch_Eps (s : list ascii) (cs : captures)
    (k : list ascii -> captures -> option captures) :
  rmatch Eps s cs k = k s cs.
Proof. reflexivity. Qed.

Lemma rmatch_Chr_here (c : ascii) (s : list ascii) (cs : captures)
    (k : list ascii -> captures -> option captures) :
  rmatch (Chr c) (c :: s) cs k = k s cs.
Proof. cbn [rmatch]. rewrite Ascii.eqb_refl. reflexivity. Qed.

Lemma rmatch_Opt_skip (r : regex) (s : list ascii) (cs : captures)
    (k : list ascii -> captures -> option captures) :
  rmatch r s cs k = None -> rmatch (Opt r) s cs k = k s cs.
Proof. intros H. unfold Opt. cbn [rmatch]. rewrite H. reflexivity. Qed.

Lemma rmatch_Star_skip (p : ascii -> bool) (s : list ascii) (cs : captures)
    (k : list ascii -> captures -> option captures) :
  stops p s -> rmatch (Star (Class p)) s cs k = k s cs.
Proof.
  intros H. rewrite rmatch_Star_Class. destruct s as [| x s']; [reflexivity |].
  cbn in H. cbn [List.length star_loop rmatch]. rewrite H. reflexivity.
Qed.

Lemma digit_not_white (d : ascii) : is_digit d = true -> is_white d = false.
Proof.
  destruct d as [b0 b1 b2 b3 b4 b5 b6 b7];
    destruct b0, b1, b2, b3, b4, b5, b6, b7; vm_compute; congruence.
Qed.

Lemma digit_lower (d : ascii) : is_digit d = true -> lower_char d = d.
Proof.
  destruct d as [b0 b1 b2 b3 b4 b5 b6 b7];
    destruct b0, b1, b2, b3, b4, b5, b6, b7; vm_compute; congruence.
Qed.

Ltac rx_step :=
  first [rewrite rmatch_Cat | rewrite rmatch_Chr_here | rewrite rmatch_Eps]; cbv beta.

(** [RGB_REGEX] on [rgb(A, B, C)] for three runs of digits: the groups
    are the three runs, and there is no fourth. *)
Lemma RGB_REGEX_run (a : ascii) (A : list ascii) (b : ascii) (B : list ascii)
    (c : ascii) (C : list ascii) :
  forallb is_digit (a :: A) = true -> forallb is_digit (b :: B) = true ->
  forallb is_digit (c :: C) = true ->
  match_whole RGB_REGEX (string_of_list_ascii (rgb_text (a :: A) (b :: B) (c :: C)))
  = Some [(3, string_of_list_ascii (c :: C)); (2, string_of_list_ascii (b :: B));
          (1, string_of_list_ascii (a :: A))]%nat.
Proof.
  intros HA HB HC.
  assert (Wa : is_white a = false)
    by (apply digit_not_white; cbn in HA; destruct (is_digit a); [reflexivity | discriminate]).
  assert (Wb : is_white b = false)
    by (apply digit_not_white; cbn in HB; destruct (is_digit b); [reflexivity | discriminate]).
  assert (Wc : is_white c = false)
    by (apply digit_not_white; cbn in HC; destruct (is_digit c); [reflexivity | discriminate]).
  unfold match_whole. rewrite list_ascii_of_string_of_list_ascii.
  unfold RGB_REGEX, Seq, rgb_text. cbn [fold_right Lit list_ascii_of_string app].
  repeat rx_step.
  rewrite rmatch_Opt_skip by reflexivity. repeat rx_step.
  unfold ws at 1. rewrite rmatch_Star_skip by exact Wa. repeat rx_step.
  unfold digits at 1.
  change (a :: A ++ "," :: " " :: b :: B ++ "," :: " " :: c :: C ++ [")"])%char
    with ((a :: A) ++ "," :: " " :: (b :: B) ++ "," :: " " :: (c :: C) ++ [")"])%char.
  apply rmatch_Group_run; [exact HA | reflexivity |]. repeat rx_step.
  unfold ws at 1. rewrite rmatch_Star_skip by reflexivity. repeat rx_step.
  unfold ws at 1.
  apply (rmatch_Star_run is_white [" "%char]); [reflexivity | exact Wb |].
  repeat rx_step. unfold digits at 1.
  apply rmatch_Group_run; [exact HB | reflexivity |]. repeat rx_step.
  unfold ws at 1. rewrite rmatch_Star_skip by reflexivity. repeat rx_step.
  unfold ws at 1.
  apply (rmatch_Star_run is_white [" "%char]); [reflexivity | exact Wc |].
  repeat rx_step. unfold digits at 1.
  apply rmatch_Group_run; [exact HC | reflexivity |]. repeat rx_step.
  unfold ws at 1. rewrite rmatch_Star_skip by reflexivity. repeat rx_step.
  rewrite rmatch_Opt_skip by reflexivity. repeat rx_step.
  reflexivity.
Qed.

Lemma test_match (r : regex) (s : string) :
  test r s = true -> exists m, match_whole r s = Some m.
Proof. unfold test. destruct (match_whole r s); [eauto | discriminate]. Qed.

End RegexFacts.

(** ** Hex text and 8-bit colours *)

Section HexFacts.

Variable env : Platform.

Local Open Scope string_scope.

Lemma is_hex_digit_in (c : ascii) : JS.is_hex_digit c = true -> In c hexchars.
Proof.
  intros H.
  destruct c as [b0 b1 b2 b3 b4 b5 b6 b7];
    destruct b0, b1, b2, b3, b4, b5, b6, b7;
    vm_compute in H; try discriminate H; vm_compute; tauto.
Qed.

Lemma pair_table :
  forallb (fun c1 => forallb (fun c2 => pair_reads c1 c2) hexchars) hexchars = true.
Proof. vm_compute. reflexivity. Qed.

Lemma alpha_table : forallb alpha_byte (below 256) = true.
Proof. vm_compute. reflexivity. Qed.

Lemma byte_table : forallb byte_reads (below 256) = true.
Proof. vm_compute. reflexivity. Qed.

(** Two hex digits read as their byte, and the byte prints as the two
    digits in lower case. *)
Lemma hex_pair (c1 c2 : ascii) :
  JS.is_hex_digit c1 = true -> JS.is_hex_digit c2 = true ->
  JS.parseInt (String c1 (String c2 "")) 16 = channel (byte_of c1 c2)
  /\ (0 <= byte_of c1 c2 <= 255)%Z
  /\ hexByte (byte_of c1 c2) = lower_pair c1 c2.
Proof.
  intros H1 H2. apply is_hex_digit_in in H1, H2.
  pose proof (proj1 (forallb_forall _ _) pair_table c1 H1) as T. cbv beta in T.
  pose proof (proj1 (forallb_forall _ _) T c2 H2) as T'. unfold pair_reads in T'.
  cbv zeta in T'.
  apply andb_true_iff in T' as [T' T4].
  apply andb_true_iff in T' as [T' T3].
  apply andb_true_iff in T' as [T1 T2].
  apply FloatAxioms.Leibniz.eqb_spec in T1. apply String.eqb_eq in T4.
  split; [exact T1 |]. split; [lia | exact T4].
Qed.

Lemma hex_pair_reads (c1 c2 : ascii) :
  JS.is_hex_digit c1 = true -> JS.is_hex_digit c2 = true ->
  JS.parseInt (String c1 (String c2 "")) 16 = channel (byte_of c1 c2).
Proof. intros H1 H2. apply (hex_pair c1 c2 H1 H2). Qed.

Lemma byte_of_range (c1 c2 : ascii) :
  JS.is_hex_digit c1 = true -> JS.is_hex_digit c2 = true ->
  (0 <= byte_of c1 c2 <= 255)%Z.
Proof. intros H1 H2. apply (hex_pair c1 c2 H1 H2). Qed.

Lemma hexByte_of_pair (c1 c2 : ascii) :
  JS.is_hex_digit c1 = true -> JS.is_hex_digit c2 = true ->
  hexByte (byte_of c1 c2) = lower_pair c1 c2.
Proof. intros H1 H2. apply (hex_pair c1 c2 H1 H2). Qed.

Lemma alpha_byte_spec (n : Z) :
  (0 <= n <= 255)%Z ->
  let a := (channel n / 255)%float in
  if (n =? 255)%Z then a = 1%float
  else (a <? 1)%float = true /\ JS.Math_round (a * 255) = channel n.
Proof.
  intros Hn a.
  pose proof (proj1 (forallb_forall _ _) alpha_table n (in_below 256 n ltac:(lia))) as T.
  unfold alpha_byte in T. fold a in T. destruct (n =? 255)%Z.
  - apply FloatAxioms.Leibniz.eqb_spec. exact T.
  - apply andb_true_iff in T as [T1 T2].
    apply FloatAxioms.Leibniz.eqb_spec in T2. auto.
Qed.

Lemma hexByte_digits (n : Z) :
  (0 <= n <= 255)%Z ->
  let c1 := JS.hex_char (n / 16) in
  let c2 := JS.hex_char (n mod 16) in
  (JS.is_hex_digit c1 = true /\ JS.is_hex_digit c2 = true /\ byte_of c1 c2 = n)
  /\ (JS.is_white c1 = false /\ JS.is_white c2 = false)
  /\ (JS.lower_char c1 = c1 /\ JS.lower_char c2 = c2).
Proof.
  intros Hn c1 c2.
  pose proof (proj1 (forallb_forall _ _) byte_table n (in_below 256 n ltac:(lia))) as T.
  unfold byte_reads in T. fold c1 c2 in T.
  apply andb_true_iff in T as [T T7]. apply andb_true_iff in T as [T T6].
  apply andb_true_iff in T as [T T5]. apply andb_true_iff in T as [T T4].
  apply andb_true_iff in T as [T T3]. apply andb_true_iff in T as [T1 T2].
  apply Z.eqb_eq in T3. apply negb_true_iff in T4, T5. apply Ascii.eqb_eq in T6, T7.
  auto 10.
Qed.

Ltac hex_digits H :=
  cbn [forallb] in H;
  repeat (let Hc := fresh "Hc" in apply andb_true_iff in H as [Hc H]);
  unfold hexToRgb; rewrite hex_text_shape;
  cbn -[JS.parseInt];
  repeat match goal with
         | Hc : JS.is_hex_digit ?c = true |- context [JS.is_hex_digit ?c] => rewrite Hc
         end;
  cbn -[JS.parseInt]; unfold twice;
  rewrite !hex_pair_reads by assumption.

(** [hexToRgb] on the four documented forms: a short digit counts twice,
    alpha is its byte over 255, and 1 when there is none. *)
Lemma hexToRgb_forms :
  (forall r g b : ascii,
      forallb JS.is_hex_digit [r; g; b] = true ->
      hexToRgb env (String "#" (String r (String g (String b ""))))
      = Some (Rgb.mk (channel (byte_of r r)) (channel (byte_of g g))
                     (channel (byte_of b b)) 1))
  /\ (forall r g b a : ascii,
         forallb JS.is_hex_digit [r; g; b; a] = true ->
         hexToRgb env (String "#" (String r (String g (String b (String a "")))))
         = Some (Rgb.mk (channel (byte_of r r)) (channel (byte_of g g))
                        (channel (byte_of b b)) (channel (byte_of a a) / 255)))
  /\ (forall r1 r2 g1 g2 b1 b2 : ascii,
         forallb JS.is_hex_digit [r1; r2; g1; g2; b1; b2] = true ->
         hexToRgb env (String "#" (String r1 (String r2 (String g1 (String g2
                        (String b1 (String b2 "")))))))
         = Some (Rgb.mk (channel (byte_of r1 r2)) (channel (byte_of g1 g2))
                        (channel (byte_of b1 b2)) 1))
  /\ (forall r1 r2 g1 g2 b1 b2 a1 a2 : ascii,
         forallb JS.is_hex_digit [r1; r2; g1; g2; b1; b2; a1; a2] = true ->
         hexToRgb env (String "#" (String r1 (String r2 (String g1 (String g2
                        (String b1 (String b2 (String a1 (String a2 "")))))))))
         = Some (Rgb.mk (channel (byte_of r1 r2)) (channel (byte_of g1 g2))
                        (channel (byte_of b1 b2)) (channel (byte_of a1 a2) / 255))).
Proof.
  split; [| split; [| split]]; intros; hex_digits H; reflexivity.
Qed.

(** Every text [isHexColorValid] accepts is converted. *)
Lemma hexToRgb_valid_some (s : string) :
  isHexColorValid s = true -> is_Some (hexToRgb env s).
Proof.
  rewrite hex_text_shape. intros H.
  destruct hexToRgb_forms as (F3 & F4 & F6 & F8).
  destruct (hex_text_cases s H)
    as [(r & g & b & -> & Hd) | [(r & g & b & a & -> & Hd)
       | [(r1 & r2 & g1 & g2 & b1 & b2 & -> & Hd)
       | (r1 & r2 & g1 & g2 & b1 & b2 & a1 & a2 & -> & Hd)]]].
  - rewrite (F3 _ _ _ Hd). eauto.
  - rewrite (F4 _ _ _ _ Hd). eauto.
  - rewrite (F6 _ _ _ _ _ _ Hd). eauto.
  - rewrite (F8 _ _ _ _ _ _ _ _ Hd). eauto.
Qed.

(** X4. [hexToRgb] never answers [null] on a text [isHexColorValid]
    accepts, whatever the canvas: it gives integer channels of [0, 255],
    and an alpha that is a byte over 255 when the text ends in alpha
    digits and 1 when it has none. *)
Theorem hexToRgb_valid_hex (s : string) :
  isHexColorValid s = true ->
  exists nr ng nb na : Z,
    ((0 <= nr <= 255) /\ (0 <= ng <= 255) /\ (0 <= nb <= 255) /\ (0 <= na <= 255))%Z
    /\ hexToRgb env s
       = Some (Rgb.mk (channel nr) (channel ng) (channel nb)
                      (if has_alpha_digits s then (channel na / 255)%float
                       else 1%float)).
Proof.
  rewrite hex_text_shape. intros H.
  destruct hexToRgb_forms as (F3 & F4 & F6 & F8).
  destruct (hex_text_cases s H)
    as [(r & g & b & -> & Hd) | [(r & g & b & a & -> & Hd)
       | [(r1 & r2 & g1 & g2 & b1 & b2 & -> & Hd)
       | (r1 & r2 & g1 & g2 & b1 & b2 & a1 & a2 & -> & Hd)]]].
  - rewrite (F3 _ _ _ Hd). cbn [forallb] in Hd.
    repeat (let Hc := fresh "Hc" in apply andb_true_iff in Hd as [Hc Hd]).
    exists (byte_of r r), (byte_of g g), (byte_of b b), 255%Z.
    split; [| reflexivity].
    repeat split; try lia; apply byte_of_range; assumption.
  - rewrite (F4 _ _ _ _ Hd). cbn [forallb] in Hd.
    repeat (let Hc := fresh "Hc" in apply andb_true_iff in Hd as [Hc Hd]).
    exists (byte_of r r), (byte_of g g), (byte_of b b), (byte_of a a).
    split; [| reflexivity].
    repeat split; apply byte_of_range; assumption.
  - rewrite (F6 _ _ _ _ _ _ Hd). cbn [forallb] in Hd.
    repeat (let Hc := fresh "Hc" in apply andb_true_iff in Hd as [Hc Hd]).
    exists (byte_of r1 r2), (byte_of g1 g2), (byte_of b1 b2), 255%Z.
    split; [| reflexivity].
    repeat split; try lia; apply byte_of_range; assumption.
  - rewrite (F8 _ _ _ _ _ _ _ _ Hd). cbn [forallb] in Hd.
    repeat (let Hc := fresh "Hc" in apply andb_true_iff in Hd as [Hc Hd]).
    exists (byte_of r1 r2), (byte_of g1 g2), (byte_of b1 b2), (byte_of a1 a2).
    split; [| reflexivity].
    repeat split; apply byte_of_range; assumption.
Qed.

Lemma rgbToHex_bytes (nr ng nb : Z) (a : float) :
  (0 <= nr <= 255)%Z -> (0 <= ng <= 255)%Z -> (0 <= nb <= 255)%Z ->
  rgbToHex env (Rgb.mk (channel nr) (channel ng) (channel nb) a)
  = "#" ++ hexByte nr ++ hexByte ng ++ hexByte nb
        ++ (if PrimFloat.ltb a 1
            then JS.padStart 2 "0" (toString16 env (JS.Math_round (a * 255)))
            else "").
Proof.
  intros Hr Hg Hb. rewrite rgbToHex_unfold. cbn [Rgb.r Rgb.g Rgb.b Rgb.a].
  rewrite !channel_hex by assumption. reflexivity.
Qed.

Lemma rgbToHex_alpha_byte (nr ng nb na : Z) :
  (0 <= nr <= 255)%Z -> (0 <= ng <= 255)%Z -> (0 <= nb <= 255)%Z ->
  (0 <= na <= 255)%Z ->
  rgbToHex env (Rgb.mk (channel nr) (channel ng) (channel nb) (channel na / 255))
  = "#" ++ hexByte nr ++ hexByte ng ++ hexByte nb
        ++ (if (na =? 255)%Z then "" else hexByte na).
Proof.
  intros Hr Hg Hb Ha. rewrite rgbToHex_bytes by assumption.
  pose proof (alpha_byte_spec na Ha) as T. cbv zeta in T.
  destruct (na =? 255)%Z.
  - rewrite T. reflexivity.
  - destruct T as [T1 T2]. rewrite T1, T2, channel_hex by assumption. reflexivity.
Qed.

(** [hexToRgb] on the hex text of four bytes. *)
Lemma hexToRgb_byte_text (nr ng nb na : Z) :
  (0 <= nr <= 255)%Z -> (0 <= ng <= 255)%Z -> (0 <= nb <= 255)%Z ->
  (0 <= na <= 255)%Z ->
  hexToRgb env ("#" ++ hexByte nr ++ hexByte ng ++ hexByte nb
                    ++ (if (na =? 255)%Z then "" else hexByte na))
  = Some (Rgb.mk (channel nr) (channel ng) (channel nb) (channel na / 255)).
Proof.
  intros Hr Hg Hb Ha.
  destruct hexToRgb_forms as (_ & _ & F6 & F8).
  destruct (hexByte_digits nr Hr) as ((R1 & R2 & R3) & _).
  destruct (hexByte_digits ng Hg) as ((G1 & G2 & G3) & _).
  destruct (hexByte_digits nb Hb) as ((B1 & B2 & B3) & _).
  destruct (hexByte_digits na Ha) as ((A1 & A2 & A3) & _).
  destruct (na =? 255)%Z eqn:Hna.
  - apply Z.eqb_eq in Hna. subst na. unfold hexByte. cbv [String.append].
    rewrite F6 by (cbn [forallb]; rewrite R1, R2, G1, G2, B1, B2; reflexivity).
    rewrite R3, G3, B3.
    replace (channel 255 / 255)%float with 1%float by (vm_compute; reflexivity).
    reflexivity.
  - unfold hexByte. cbv [String.append].
    rewrite F8 by (cbn [forallb]; rewrite R1, R2, G1, G2, B1, B2, A1, A2; reflexivity).
    rewrite R3, G3, B3, A3. reflexivity.
Qed.

(** X5. From an 8-bit colour, its alpha a byte over 255, to its hex text
    and back: [hexToRgb(rgbToHex(c))] is [c]. *)
Theorem rgb_hex_rgb (nr ng nb na : Z) :
  (0 <= nr <= 255)%Z -> (0 <= ng <= 255)%Z -> (0 <= nb <= 255)%Z ->
  (0 <= na <= 255)%Z ->
  let c := Rgb.mk (channel nr) (channel ng) (channel nb) (channel na / 255) in
  hexToRgb env (rgbToHex env c) = Some c.
Proof.
  intros Hr Hg Hb Ha c. subst c.
  rewrite rgbToHex_alpha_byte by assumption.
  apply hexToRgb_byte_text; assumption.
Qed.

(** X6. From a hex text to the colour and back, [rgbToHex(hexToRgb(s))]
    is [s] in lower case, with a short form written out (each digit
    twice) and an opaque alpha byte ([ff], or [f] in a short form) left
    out. *)
Theorem hex_rgb_hex :
  (forall r g b : ascii,
      forallb JS.is_hex_digit [r; g; b] = true ->
      rgbToHex env <$> hexToRgb env (String "#" (String r (String g (String b ""))))
      = Some ("#" ++ lower_pair r r ++ lower_pair g g ++ lower_pair b b))
  /\ (forall r g b a : ascii,
         forallb JS.is_hex_digit [r; g; b; a] = true ->
         rgbToHex env
           <$> hexToRgb env (String "#" (String r (String g (String b (String a "")))))
         = Some ("#" ++ lower_pair r r ++ lower_pair g g ++ lower_pair b b
                     ++ (if (byte_of a a =? 255)%Z then "" else lower_pair a a)))
  /\ (forall r1 r2 g1 g2 b1 b2 : ascii,
         forallb JS.is_hex_digit [r1; r2; g1; g2; b1; b2] = true ->
         let s := String "#" (String r1 (String r2 (String g1 (String g2
                    (String b1 (String b2 "")))))) in
         rgbToHex env <$> hexToRgb env s = Some (JS.toLowerCase s))
  /\ (forall r1 r2 g1 g2 b1 b2 a1 a2 : ascii,
         forallb JS.is_hex_digit [r1; r2; g1; g2; b1; b2; a1; a2] = true ->
         let s := String "#" (String r1 (String r2 (String g1 (String g2
                    (String b1 (String b2 (String a1 (String a2 "")))))))) in
         rgbToHex env <$> hexToRgb env s
         = Some (if (byte_of a1 a2 =? 255)%Z
                 then JS.substring 0 7 (JS.toLowerCase s) else JS.toLowerCase s)).
Proof.
  destruct hexToRgb_forms as (F3 & F4 & F6 & F8).
  assert (Hone : (1 <? 1)%float = false) by reflexivity.
  split; [| split; [| split]]; intros.
  - rewrite (F3 _ _ _ H). cbn [forallb] in H.
    repeat (let Hc := fresh "Hc" in apply andb_true_iff in H as [Hc H]).
    cbn [fmap option_fmap option_map].
    rewrite rgbToHex_bytes by (apply byte_of_range; assumption).
    rewrite Hone, !hexByte_of_pair by assumption. reflexivity.
  - rewrite (F4 _ _ _ _ H). cbn [forallb] in H.
    repeat (let Hc := fresh "Hc" in apply andb_true_iff in H as [Hc H]).
    cbn [fmap option_fmap option_map].
    rewrite rgbToHex_alpha_byte by (apply byte_of_range; assumption).
    rewrite !hexByte_of_pair by assumption. reflexivity.
  - subst s. rewrite (F6 _ _ _ _ _ _ H). cbn [forallb] in H.
    repeat (let Hc := fresh "Hc" in apply andb_true_iff in H as [Hc H]).
    cbn [fmap option_fmap option_map].
    rewrite rgbToHex_bytes by (apply byte_of_range; assumption).
    rewrite Hone, !hexByte_of_pair by assumption. reflexivity.
  - subst s. rewrite (F8 _ _ _ _ _ _ _ _ H). cbn [forallb] in H.
    repeat (let Hc := fresh "Hc" in apply andb_true_iff in H as [Hc H]).
    cbn [fmap option_fmap option_map].
    rewrite rgbToHex_alpha_byte by (apply byte_of_range; assumption).
    rewrite !hexByte_of_pair by assumption.
    destruct (byte_of a1 a2 =? 255)%Z; reflexivity.
Qed.

End HexFacts.

(** ** Validation, the earlier revision, and text *)

Section TextFacts.

Variable env : Platform.

Local Open Scope string_scope.

(** X7. A text that [isValidColor] accepts as hex, rgb, hsv or oklch is
    never rejected by [parseToRgb]. *)
Theorem isValidColor_parses (value : string) (format : ColorFormat) :
  format <> FormatNamedColor ->
  isValidColor env value (Some format) = true ->
  is_Some (parseToRgb env (InString value)).
Proof.
  intros Hfmt Hvalid. cbn [parseToRgb]. unfold parseToRgb_string.
  destruct value as [| c value'].
  { destruct format; try congruence; vm_compute in Hvalid; discriminate Hvalid. }
  cbn [JS.truthy negb]. cbv zeta.
  unfold isValidColor in Hvalid. cbv zeta in Hvalid.
  set (trimmed := JS.toLowerCase (JS.trim (String c value'))) in *.
  destruct (hexToRgb env trimmed) as [hexResult |] eqn:Hhex; [eauto |].
  destruct format; try congruence.
  - destruct (hexToRgb_valid_some env trimmed Hvalid) as [rgb Hsome]. congruence.
  - destruct (test_match _ _ Hvalid) as [m ->]. eauto.
  - destruct (JS.match_whole RGB_REGEX trimmed); [eauto |].
    destruct (test_match _ _ Hvalid) as [m ->]. eauto.
  - destruct (JS.match_whole RGB_REGEX trimmed); [eauto |].
    destruct (JS.match_whole HSV_REGEX trimmed); [eauto |].
    destruct (test_match _ _ Hvalid) as [m ->]. eauto.
Qed.

(** X8. Whether a text is a named colour is decided by the environment
    alone: with a canvas [isValidColor] accepts every text as one (and so
    every text when no format is given), without a canvas none. *)
Theorem isValidColor_named (value : string) :
  isValidColor env value (Some FormatNamedColor)
  = match canvas_fillStyle env with Some _ => true | None => false end
  /\ (forall fillStyle, canvas_fillStyle env = Some fillStyle ->
                        isValidColor env value None = true)
  /\ (canvas_fillStyle env = None ->
      isValidColor env value None
      = isValidColor env value (Some FormatHex)
        || isValidColor env value (Some FormatRgb)
        || isValidColor env value (Some FormatHsv)
        || isValidColor env value (Some FormatOklch)).
Proof.
  unfold isValidColor, colorNameToHex. cbv zeta.
  destruct (canvas_fillStyle env) as [f |].
  - split; [reflexivity |]. split; [| discriminate].
    intros _ _. rewrite !orb_true_r. reflexivity.
  - split; [reflexivity |]. split; [discriminate |].
    intros _. rewrite orb_false_r. reflexivity.
Qed.

(** X21. The earlier [parseColor] on a text: a valid hex text is
    converted and kept as it was typed; without a canvas every other text
    gives [null]. *)
Theorem legacy_parseColor_string (s : string) :
  (isHexColorValid s = true ->
   exists c, hexToRgb env s = Some c
             /\ Legacy.parseColor env (InString s)
                = Some {| hex := s; rgb := c; hsv := rgbToHsv c;
                          oklch := rgbToOklch env c |})
  /\ (canvas_fillStyle env = None -> isHexColorValid s = false ->
      Legacy.parseColor env (InString s) = None).
Proof.
  split.
  - intros Hvalid.
    destruct (hexToRgb_valid_some env s Hvalid) as [c Hsome].
    exists c. split; [exact Hsome |].
    cbn [Legacy.parseColor]. unfold Legacy.hexToRgb. rewrite Hvalid.
    unfold hexToRgb in Hsome. rewrite Hvalid in Hsome. rewrite Hsome. reflexivity.
  - intros Hcanvas Hinvalid.
    cbn [Legacy.parseColor]. unfold Legacy.hexToRgb, Legacy.colorNameToHex.
    rewrite Hinvalid, Hcanvas. reflexivity.
Qed.

Lemma channel_text_table : forallb channel_text (below 256) = true.
Proof. vm_compute. reflexivity. Qed.

Lemma channel_text_spec (n : Z) :
  (0 <= n <= 255)%Z ->
  exists d ds,
    JS.Number_toString (channel n) = string_of_list_ascii (d :: ds)
    /\ forallb JS.is_digit (d :: ds) = true
    /\ JS.parseInt (string_of_list_ascii (d :: ds)) 10 = channel n.
Proof.
  intros Hn.
  pose proof (proj1 (forallb_forall _ _) channel_text_table n (in_below 256 n ltac:(lia))) as T.
  unfold channel_text in T. cbv zeta in T.
  destruct (list_ascii_of_string (JS.Number_toString (channel n))) as [| d ds] eqn:Hl;
    [discriminate |].
  apply andb_true_iff in T as [T1 T2]. apply FloatAxioms.Leibniz.eqb_spec in T2.
  exists d, ds.
  assert (Ht : JS.Number_toString (channel n) = string_of_list_ascii (d :: ds)).
  { rewrite <- Hl. symmetry. apply string_of_list_ascii_of_string. }
  rewrite <- Ht. auto.
Qed.

Lemma string_of_list_ascii_app (l1 l2 : list ascii) :
  string_of_list_ascii (l1 ++ l2) = string_of_list_ascii l1 ++ string_of_list_ascii l2.
Proof. induction l1 as [| c l1 IH]; [reflexivity |]. cbn. rewrite IH. reflexivity. Qed.

Lemma toLowerCase_plain (l : list ascii) :
  Forall (fun c => JS.lower_char c = c) l ->
  JS.toLowerCase (string_of_list_ascii l) = string_of_list_ascii l.
Proof.
  induction 1 as [| c l Hc _ IH]; [reflexivity |].
  cbn. rewrite Hc, IH. reflexivity.
Qed.

(** A text that neither starts nor ends with white space is trimmed. *)
Lemma trim_plain (x y : ascii) (l : list ascii) :
  JS.is_white x = false -> JS.is_white y = false ->
  JS.trim (string_of_list_ascii (x :: l ++ [y])) = string_of_list_ascii (x :: l ++ [y]).
Proof.
  intros Hx Hy. unfold JS.trim.
  assert (Hs : JS.trimStart (string_of_list_ascii (x :: l ++ [y]))
               = string_of_list_ascii (x :: l ++ [y])).
  { cbn. rewrite Hx. reflexivity. }
  rewrite Hs. unfold JS.trimEnd, JS.reverse.
  rewrite list_ascii_of_string_of_list_ascii.
  replace (rev (x :: l ++ [y])) with (y :: rev l ++ [x])
    by (cbn [rev]; rewrite rev_app_distr; reflexivity).
  cbn [string_of_list_ascii JS.trimStart]. rewrite Hy.
  change (String y (string_of_list_ascii (rev l ++ [x])))
    with (string_of_list_ascii (y :: rev l ++ [x])).
  rewrite list_ascii_of_string_of_list_ascii.
  cbn [rev]. rewrite rev_app_distr, rev_involutive. reflexivity.
Qed.

(** The hex text of an 8-bit colour is already trimmed and lower case. *)
Lemma rgbToHex_plain (nr ng nb na : Z) :
  (0 <= nr <= 255)%Z -> (0 <= ng <= 255)%Z -> (0 <= nb <= 255)%Z ->
  (0 <= na <= 255)%Z ->
  let c := Rgb.mk (channel nr) (channel ng) (channel nb) (channel na / 255) in
  JS.trim (rgbToHex env c) = rgbToHex env c
  /\ JS.toLowerCase (rgbToHex env c) = rgbToHex env c.
Proof.
  intros Hr Hg Hb Ha c. subst c. rewrite rgbToHex_alpha_byte by assumption.
  destruct (hexByte_digits nr Hr) as (_ & (R1 & R2) & (R3 & R4)).
  destruct (hexByte_digits ng Hg) as (_ & (G1 & G2) & (G3 & G4)).
  destruct (hexByte_digits nb Hb) as (_ & (B1 & B2) & (B3 & B4)).
  destruct (hexByte_digits na Ha) as (_ & (A1 & A2) & (A3 & A4)).
  unfold hexByte. destruct (na =? 255)%Z; cbv [String.append].
  - set (r1 := JS.hex_char (nr / 16)) in *. set (r2 := JS.hex_char (nr mod 16)) in *.
    set (g1 := JS.hex_char (ng / 16)) in *. set (g2 := JS.hex_char (ng mod 16)) in *.
    set (b1 := JS.hex_char (nb / 16)) in *. set (b2 := JS.hex_char (nb mod 16)) in *.
    change (String "#" (String r1 (String r2 (String g1 (String g2 (String b1 (String b2 "")))))))
      with (string_of_list_ascii ("#"%char :: [r1; r2; g1; g2; b1] ++ [b2])).
    split; [apply trim_plain; reflexivity || assumption |].
    apply toLowerCase_plain. repeat constructor; assumption.
  - set (r1 := JS.hex_char (nr / 16)) in *. set (r2 := JS.hex_char (nr mod 16)) in *.
    set (g1 := JS.hex_char (ng / 16)) in *. set (g2 := JS.hex_char (ng mod 16)) in *.
    set (b1 := JS.hex_char (nb / 16)) in *. set (b2 := JS.hex_char (nb mod 16)) in *.
    set (a1 := JS.hex_char (na / 16)) in *. set (a2 := JS.hex_char (na mod 16)) in *.
    change (String "#" (String r1 (String r2 (String g1 (String g2 (String b1 (String b2
             (String a1 (String a2 "")))))))))
      with (string_of_list_ascii ("#"%char :: [r1; r2; g1; g2; b1; b2; a1] ++ [a2])).
    split; [apply trim_plain; reflexivity || assumption |].
    apply toLowerCase_plain. repeat constructor; assumption.
Qed.

(** [parseToRgb] reads the hex text of an 8-bit colour as that colour. *)
Lemma parseToRgb_hex_text (nr ng nb na : Z) :
  (0 <= nr <= 255)%Z -> (0 <= ng <= 255)%Z -> (0 <= nb <= 255)%Z ->
  (0 <= na <= 255)%Z ->
  let c := Rgb.mk (channel nr) (channel ng) (channel nb) (channel na / 255) in
  parseToRgb env (InString (rgbToHex env c)) = Some c.
Proof.
  intros Hr Hg Hb Ha c. cbn [parseToRgb]. unfold parseToRgb_string.
  destruct (rgbToHex_hash env c) as [t Ht].
  replace (JS.truthy (rgbToHex env c)) with true by (rewrite Ht; reflexivity).
  cbn [negb]. cbv zeta.
  destruct (rgbToHex_plain nr ng nb na Hr Hg Hb Ha) as [Htrim Hlower].
  fold c in Htrim, Hlower. rewrite Htrim, Hlower.
  subst c. rewrite rgbToHex_alpha_byte by assumption.
  rewrite (hexToRgb_byte_text env nr ng nb na Hr Hg Hb Ha). reflexivity.
Qed.

Lemma rgb_text_string (A B C : list ascii) :
  "rgb(" ++ string_of_list_ascii A ++ ", " ++ string_of_list_ascii B ++ ", "
         ++ string_of_list_ascii C ++ ")"
  = string_of_list_ascii (rgb_text A B C).
Proof. unfold rgb_text. rewrite !string_of_list_ascii_app. reflexivity. Qed.

Lemma rgb_text_ends (A B C : list ascii) :
  rgb_text A B C
  = "r"%char :: (list_ascii_of_string "gb(" ++ A ++ list_ascii_of_string ", " ++ B
                 ++ list_ascii_of_string ", " ++ C) ++ [")"%char].
Proof.
  unfold rgb_text. cbn [list_ascii_of_string app].
  repeat (rewrite <- app_assoc || rewrite <- app_comm_cons). reflexivity.
Qed.

Lemma digits_plain (l : list ascii) :
  forallb JS.is_digit l = true -> Forall (fun c => JS.lower_char c = c) l.
Proof.
  intros H. apply List.Forall_forall. intros c Hc.
  apply digit_lower. exact (proj1 (forallb_forall _ _) H c Hc).
Qed.

Lemma rgb_text_plain (A B C : list ascii) :
  forallb JS.is_digit A = true -> forallb JS.is_digit B = true ->
  forallb JS.is_digit C = true ->
  JS.trim (string_of_list_ascii (rgb_text A B C)) = string_of_list_ascii (rgb_text A B C)
  /\ JS.toLowerCase (string_of_list_ascii (rgb_text A B C))
     = string_of_list_ascii (rgb_text A B C).
Proof.
  intros HA HB HC. split.
  - rewrite rgb_text_ends. apply trim_plain; reflexivity.
  - apply toLowerCase_plain. unfold rgb_text.
    repeat (apply Forall_app; split); try (apply digits_plain; assumption);
      repeat constructor.
Qed.

(** What [formatColor] writes as rgb for an opaque 8-bit colour. *)
Lemma formatColor_rgb_text (nr ng nb : Z) :
  (0 <= nr <= 255)%Z -> (0 <= ng <= 255)%Z -> (0 <= nb <= 255)%Z ->
  let c := Rgb.mk (channel nr) (channel ng) (channel nb) 1 in
  exists a A b B d D,
    formatColor (colorValueOf env c) FormatRgb
    = string_of_list_ascii (rgb_text (a :: A) (b :: B) (d :: D))
    /\ forallb JS.is_digit (a :: A) = true /\ forallb JS.is_digit (b :: B) = true
    /\ forallb JS.is_digit (d :: D) = true
    /\ JS.parseInt (string_of_list_ascii (a :: A)) 10 = channel nr
    /\ JS.parseInt (string_of_list_ascii (b :: B)) 10 = channel ng
    /\ JS.parseInt (string_of_list_ascii (d :: D)) 10 = channel nb.
Proof.
  intros Hr Hg Hb c.
  destruct (channel_text_spec nr Hr) as (a & A & Ta & Da & Pa).
  destruct (channel_text_spec ng Hg) as (b & B & Tb & Db & Pb).
  destruct (channel_text_spec nb Hb) as (d & D & Td & Dd & Pd).
  exists a, A, b, B, d, D. split; [| auto 10].
  cbn [formatColor colorValueOf rgb c Rgb.r Rgb.g Rgb.b Rgb.a].
  replace (PrimFloat.ltb 1 1) with false by reflexivity.
  rewrite Ta, Tb, Td. apply rgb_text_string.
Qed.

(** [parseToRgb] on [rgb(A, B, C)] for any three runs of digits, when no
    canvas is asked first. *)
Lemma parseToRgb_rgb_run (a : ascii) (A : list ascii) (b : ascii) (B : list ascii)
    (d : ascii) (D : list ascii) :
  canvas_fillStyle env = None ->
  forallb JS.is_digit (a :: A) = true -> forallb JS.is_digit (b :: B) = true ->
  forallb JS.is_digit (d :: D) = true ->
  parseToRgb env (InString (string_of_list_ascii (rgb_text (a :: A) (b :: B) (d :: D))))
  = Some (Rgb.mk (JS.parseInt (string_of_list_ascii (a :: A)) 10)
                 (JS.parseInt (string_of_list_ascii (b :: B)) 10)
                 (JS.parseInt (string_of_list_ascii (d :: D)) 10) 1).
Proof.
  intros Hcanvas Da Db Dd. cbn [parseToRgb]. unfold parseToRgb_string.
  replace (JS.truthy (string_of_list_ascii (rgb_text (a :: A) (b :: B) (d :: D))))
    with true by reflexivity.
  cbn [negb]. cbv zeta.
  destruct (rgb_text_plain (a :: A) (b :: B) (d :: D) Da Db Dd) as [Htrim Hlower].
  rewrite Htrim, Hlower.
  assert (Hhex : hexToRgb env (string_of_list_ascii (rgb_text (a :: A) (b :: B) (d :: D)))
                 = None).
  { unfold hexToRgb. rewrite hex_text_shape.
    replace (is_hex_text (string_of_list_ascii (rgb_text (a :: A) (b :: B) (d :: D))))
      with false by reflexivity.
    unfold colorNameToHex. rewrite Hcanvas. reflexivity. }
  rewrite Hhex, RGB_REGEX_run by assumption.
  unfold group_text, alpha_group. cbn [JS.group Nat.eqb default]. unfold id.
  reflexivity.
Qed.

Lemma parseToRgb_rgb_text (nr ng nb : Z) :
  (0 <= nr <= 255)%Z -> (0 <= ng <= 255)%Z -> (0 <= nb <= 255)%Z ->
  canvas_fillStyle env = None ->
  let c := Rgb.mk (channel nr) (channel ng) (channel nb) 1 in
  parseToRgb env (InString (formatColor (colorValueOf env c) FormatRgb)) = Some c.
Proof.
  intros Hr Hg Hb Hcanvas c.
  destruct (formatColor_rgb_text nr ng nb Hr Hg Hb)
    as (a & A & b & B & d & D & Htext & Da & Db & Dd & Pa & Pb & Pd).
  fold c in Htext. rewrite Htext.
  rewrite parseToRgb_rgb_run by assumption.
  rewrite Pa, Pb, Pd. reflexivity.
Qed.

(** X19. What [formatColor] writes for an opaque 8-bit colour, as hex or
    as rgb, is read back by [parseToRgb] as that colour (the rgb text
    when no canvas is asked first). *)
Theorem formatColor_parses_back (nr ng nb : Z) :
  (0 <= nr <= 255)%Z -> (0 <= ng <= 255)%Z -> (0 <= nb <= 255)%Z ->
  let c := Rgb.mk (channel nr) (channel ng) (channel nb) 1 in
  let value := colorValueOf env c in
  parseToRgb env (InString (formatColor value FormatHex)) = Some c
  /\ (canvas_fillStyle env = None ->
      parseToRgb env (InString (formatColor value FormatRgb)) = Some c).
Proof.
  intros Hr Hg Hb c value. split.
  - cbn [formatColor value colorValueOf hex].
    replace 1%float with (channel 255 / 255)%float in c by (vm_compute; reflexivity).
    apply (parseToRgb_hex_text nr ng nb 255); lia.
  - intros Hcanvas. apply parseToRgb_rgb_text; assumption.
Qed.

Lemma parseColor_text (cache : gmap string ColorValue) (text : string) (c : RgbColor) :
  JS.trim (JS.toLowerCase text) = text ->
  parseToRgb env (InString text) = Some c ->
  (forall v, cache !! text = Some v -> v = colorValueOf env c) ->
  (parseColor env cache (InString text)).1 = colorValueOf env c.
Proof.
  intros Hkey Hparse Hcache. unfold parseColor.
  cbn [is_object is_string negb andb cacheKeyOf mbind option_bind]. rewrite Hkey.
  destruct (cache !! text) as [v |] eqn:Hv.
  - cbn [fst]. apply Hcache. reflexivity.
  - cbv zeta. cbn [fst]. rewrite Hparse. reflexivity.
Qed.

(** X20. ColorPickerInput: typing back the text that is shown for an
    opaque 8-bit colour, as hex or as rgb, does not call [setColor], and
    the text stays as typed (the cache holding no other colour under that
    text). *)
Theorem handleInput_shown_text (cache : gmap string ColorValue) (nr ng nb : Z)
    (format : ColorFormat) :
  (0 <= nr <= 255)%Z -> (0 <= ng <= 255)%Z -> (0 <= nb <= 255)%Z ->
  format = FormatHex \/ (format = FormatRgb /\ canvas_fillStyle env = None) ->
  let color := colorValueOf env (Rgb.mk (channel nr) (channel ng) (channel nb) 1) in
  let text := formatColor color format in
  (forall v, cache !! text = Some v -> v = color) ->
  let '(localValue, changed, _) :=
    ColorPickerInput.handleInput env cache color format text in
  localValue = text /\ changed = None
  /\ ColorPickerInput.syncLocal color format localValue = text.
Proof.
  intros Hr Hg Hb Hfmt color text Hcache.
  assert (Hparsed : (parseColor env cache (InString text)).1 = color).
  { apply parseColor_text; [| | exact Hcache].
    - destruct Hfmt as [-> | [-> Hcanvas]].
      + subst text color. cbn [formatColor colorValueOf hex].
        replace 1%float with (channel 255 / 255)%float by (vm_compute; reflexivity).
        destruct (rgbToHex_plain nr ng nb 255) as [Ht Hl]; try lia.
        cbv zeta in Ht, Hl. rewrite Hl. exact Ht.
      + destruct (formatColor_rgb_text nr ng nb Hr Hg Hb)
          as (a & A & b & B & d & D & Htext & Da & Db & Dd & _).
        subst text color. rewrite Htext.
        destruct (rgb_text_plain (a :: A) (b :: B) (d :: D) Da Db Dd) as [Ht Hl].
        rewrite Hl. exact Ht.
    - destruct Hfmt as [-> | [-> Hcanvas]].
      + subst text color. cbn [formatColor colorValueOf hex].
        replace 1%float with (channel 255 / 255)%float by (vm_compute; reflexivity).
        apply (parseToRgb_hex_text nr ng nb 255); lia.
      + apply parseToRgb_rgb_text; assumption. }
  unfold ColorPickerInput.handleInput, ColorPickerInput.syncLocal.
  destruct (parseColor env cache (InString text)) as [parsed cache'].
  cbn [fst] in Hparsed. subst parsed. fold text.
  rewrite !String.eqb_refl. cbn [negb]. auto.
Qed.

(** X23. The channels of an [rgb(...)] text are not range-checked: with no
    canvas, [parseToRgb] and [parseColor] take any three runs of digits as
    they read, 300 as well as 255, with alpha 1. *)
Theorem rgb_text_unchecked (a : ascii) (A : list ascii) (b : ascii) (B : list ascii)
    (d : ascii) (D : list ascii) :
  canvas_fillStyle env = None ->
  forallb JS.is_digit (a :: A) = true -> forallb JS.is_digit (b :: B) = true ->
  forallb JS.is_digit (d :: D) = true ->
  let text := string_of_list_ascii (rgb_text (a :: A) (b :: B) (d :: D)) in
  let c := Rgb.mk (JS.parseInt (string_of_list_ascii (a :: A)) 10)
                  (JS.parseInt (string_of_list_ascii (b :: B)) 10)
                  (JS.parseInt (string_of_list_ascii (d :: D)) 10) 1 in
  parseToRgb env (InString text) = Some c
  /\ (parseColor env ∅ (InString text)).1 = colorValueOf env c.
Proof.
  intros Hcanvas Da Db Dd text c.
  pose proof (parseToRgb_rgb_run a A b B d D Hcanvas Da Db Dd) as Hparse.
  fold text c in Hparse. split; [exact Hparse |].
  unfold parseColor. cbn [is_object is_string negb andb cacheKeyOf mbind option_bind].
  rewrite lookup_empty. cbv zeta. cbn [fst]. rewrite Hparse. reflexivity.
Qed.

(** X24. [parseToRgb] takes a text only if [isValidColor] (with no format)
    accepts it; with no canvas the two agree on every text. *)
Theorem parseToRgb_only_valid (value : string) :
  (is_Some (parseToRgb env (InString value)) -> isValidColor env value None = true)
  /\ (canvas_fillStyle env = None ->
      isValidColor env value None = true -> is_Some (parseToRgb env (InString value))).
Proof.
  split.
  - cbn [parseToRgb]. unfold parseToRgb_string, isValidColor. cbv zeta.
    destruct (JS.truthy value); cbn [negb]; [| intros [? H]; discriminate H].
    set (trimmed := JS.toLowerCase (JS.trim value)).
    unfold hexToRgb, JS.test.
    intros Hsome.
    destruct (isHexColorValid trimmed) eqn:Hhex.
    { unfold isHexColorValid, JS.test in Hhex.
      destruct (JS.match_whole HEX_REGEX trimmed); [reflexivity | discriminate Hhex]. }
    unfold isHexColorValid, JS.test in Hhex.
    destruct (JS.match_whole HEX_REGEX trimmed); [discriminate Hhex |]. cbn [orb].
    destruct (colorNameToHex env trimmed) as [name |];
      [rewrite !orb_true_r; reflexivity |].
    destruct (JS.match_whole RGB_REGEX trimmed); [reflexivity |].
    destruct (JS.match_whole HSV_REGEX trimmed); [reflexivity |].
    destruct (JS.match_whole OKLCH_REGEX trimmed); [reflexivity |].
    destruct Hsome as [? H]. discriminate H.
  - intros Hcanvas. cbn [parseToRgb]. unfold parseToRgb_string, isValidColor. cbv zeta.
    unfold colorNameToHex at 1. rewrite Hcanvas, orb_false_r.
    destruct value as [| ch value']; [intros H; vm_compute in H; discriminate H |].
    cbn [JS.truthy negb].
    set (trimmed := JS.toLowerCase (JS.trim (String ch value'))). intros Hvalid.
    destruct (hexToRgb env trimmed) as [hexResult |] eqn:Hhex; [eauto |].
    destruct (JS.test HEX_REGEX trimmed) eqn:Ht.
    { destruct (hexToRgb_valid_some env trimmed Ht) as [rgb Hs]. congruence. }
    cbn [orb] in Hvalid. unfold JS.test in Hvalid.
    destruct (JS.match_whole RGB_REGEX trimmed); [eauto |].
    destruct (JS.match_whole HSV_REGEX trimmed); [eauto |].
    destruct (JS.match_whole OKLCH_REGEX trimmed); [eauto | discriminate Hvalid].
Qed.

End TextFacts.

(** ** The unit tests of the repository ([color.utils.test.ts]) *)

Section UnitTests.

Import Sample.

Example test_isHexColorValid :
  map isHexColorValid ["#ffffff"; "#FF0000"; "#123456"; "#123"; "#fff"; "#f00";
                       "#1234"; "#aaad"]%string
  = [true; true; true; true; true; true; true; true]
  /\ map isHexColorValid ["ffffff"; "#gggggg"; "#12345"; "#1234567"; "Valid color";
                          "#Valid color"; "#1"; "#12"]%string
     = [false; false; false; false; false; false; false; false].
Proof. split; vm_compute; reflexivity. Qed.

Example test_hexToRgb :
  hexToRgb Reference.engine "#ff0000" = Some (Rgb.mk 255 0 0 1)
  /\ hexToRgb Reference.engine "#fff" = Some (Rgb.mk 255 255 255 1).
Proof. split; vm_compute; reflexivity. Qed.

Example test_rgbToHex :
  rgbToHex Reference.engine (Rgb.mk 0 255 0 1) = "#00ff00"%string.
Proof. vm_compute. reflexivity. Qed.

Example test_hsv :
  hsvToRgb (Hsv.mk 240 1 1 1) = Rgb.mk 0 0 255 1
  /\ rgbToHsv (Rgb.mk 0 0 255 1) = Hsv.mk 240 1 1 1
  /\ hsvToRgb (rgbToHsv (Rgb.mk 100 150 200 1)) = Rgb.mk 100 150 200 1.
Proof. repeat split; vm_compute; reflexivity. Qed.

Example test_transparency :
  Rgb.a <$> hexToRgb Reference.engine "#ffffff00" = Some 0%float
  /\ rgbToHex Reference.engine <$> hexToRgb Reference.engine "#ffffff00"
     = Some "#ffffff00"%string.
Proof. split; vm_compute; reflexivity. Qed.

Example test_oklch :
  oklchToRgb Reference.engine (Oklch.mk 1 0 0 1) = Rgb.mk 255 255 255 1
  /\ oklchToRgb Reference.engine (rgbToOklch Reference.engine (Rgb.mk 200 50 100 1))
     = Rgb.mk 200 50 100 1.
Proof. split; vm_compute; reflexivity. Qed.

Example test_parseToRgb :
  parseToRgb Reference.engine (InString "#ff0000") = Some (Rgb.mk 255 0 0 1)
  /\ parseToRgb Reference.engine (InRgb (Rgb.mk 0 255 0 1)) = Some (Rgb.mk 0 255 0 1)
  /\ parseToRgb Reference.engine (InHsv (Hsv.mk 240 1 1 1)) = Some (Rgb.mk 0 0 255 1)
  /\ parseToRgb Reference.engine InOther = None.
Proof. repeat split; vm_compute; reflexivity. Qed.

Example test_parseColor :
  hex (parse "#000") = "#000000"%string /\ rgb (parse "#000") = Rgb.mk 0 0 0 1.
Proof. split; vm_compute; reflexivity. Qed.

End UnitTests.

(** ** The claims on sample inputs *)

Section Samples.

Import Sample.
Abbreviation engine := Reference.engine.

Lemma float_neq (x y : float) : Leibniz.eqb x y = false -> x <> y.
Proof.
  intros H ->. pose proof (proj2 (FloatAxioms.Leibniz.eqb_spec y y) eq_refl) as H'.
  rewrite H in H'. discriminate H'.
Qed.

Lemma hue_kept_through_black_witness :
  hsvRef teal = Hsv.mk 200 0.5 0.5 1
  /\ hsvRef (run engine teal [SetHsv (onlyV 0); Flush; SetHsv (onlyV 0.5); Flush])
     = Hsv.mk 200 0.5 0.5 1.
Proof.
  assert (H : hsvRef teal = Hsv.mk 200 0.5 0.5 1) by (vm_compute; reflexivity).
  split; [exact H |].
  exact (proj2 (proj2 (hue_kept_through_black engine teal 1 1 1 H))).
Defined.

Lemma external_change_keeps_hue_witness :
  hsv black = Hsv.mk 0 0 0 1
  /\ hsvRef (run engine mounted [WriteModel black; WriteModel blue; Flush])
     = Hsv.mk 240 1 1 1
  /\ hsvRef (run engine (run engine mounted [WriteModel black; WriteModel blue; Flush])
                 [WriteModel black; Flush]) = Hsv.mk 240 1 0 1.
Proof.
  split; [vm_compute; reflexivity |]. split.
  - destruct (external_change_keeps_hue engine mounted [black] blue eq_refl)
      as (_ & Hadopt & _).
    refine (eq_trans (Hadopt _) _); vm_compute; reflexivity.
  - destruct (external_change_keeps_hue engine
                (run engine mounted [WriteModel black; WriteModel blue; Flush]) [] black
                eq_refl) as (_ & _ & _ & Hkeep & _).
    refine (eq_trans (Hkeep _) _); vm_compute; reflexivity.
Defined.

Lemma setHsv_with_hue_witness :
  hsvRef (updateHsv engine (onlyH 90) mounted) = Hsv.mk 90 1 1 1
  /\ previewColorRef (updateHsv engine (onlyH 90) mounted)
     = colorValueOf engine (hsvToRgb (pureHue 90)).
Proof.
  pose proof (setHsv_with_hue engine mounted (onlyH 90) 90 eq_refl) as (H1 & _ & _ & H4 & _).
  split; [rewrite H1; vm_compute; reflexivity | exact H4].
Defined.

Lemma setHsv_without_hue_keeps_preview_witness :
  previewColorRef (updateHsv engine (onlyS 0.2) mounted) = previewColorRef mounted.
Proof.
  exact (proj1 (proj1 (setHsv_without_hue_keeps_preview engine mounted (onlyS 0.2)) eq_refl)).
Defined.

Lemma preview_follows_hue_witness :
  let st := run engine mounted [SetHsv (onlyH 90); Flush; SetHsv (onlyS 0.2); Flush] in
  Hsv.h (hsvRef st) = 90%float
  /\ previewColorRef st = (parseColor engine ∅ (InHsv (pureHue (Hsv.h (hsvRef st))))).1.
Proof.
  split; [vm_compute; reflexivity |].
  apply (preview_follows_hue engine ∅ red
           [SetHsv (onlyH 90); Flush; SetHsv (onlyS 0.2); Flush]).
  - vm_compute; reflexivity.
  - repeat constructor.
Defined.

Lemma parseColor_idempotent_witness :
  parseColor engine ∅ (InValue red) = (red, ∅)
  /\ parseColor engine ∅ (InValue (parseColor engine ∅ (InString "teal")).1)
     = ((parseColor engine ∅ (InString "teal")).1, ∅).
Proof.
  split.
  - destruct (proj1 (parseColor_idempotent engine) ∅ (InValue red) eq_refl)
      as (value & Hv & Hp).
    injection Hv as <-. exact Hp.
  - apply (proj2 (proj2 (parseColor_idempotent engine))).
Defined.

(** C4 as stated fails.  A colour written into the model in the tick of
    a [setHsv] is not observed: the model is blue, the tracked HSV is still
    the red that [setHsv] left.  And [setColor] with black replaces the
    tracked hue and saturation, 200 and 0.5, by those of black. *)
Lemma external_change_unobserved :
  let st := run engine mounted [SetHsv (onlyS 0.2); WriteModel blue; Flush] in
  let st' := run engine teal [Flush; SetColor black; Flush] in
  (hsv blue = Hsv.mk 240 1 1 1
   /\ color st = blue
   /\ hsvRef st = Hsv.mk 0 0.2 1 1
   /\ hsvRef st <> hsv blue)
  /\ (hsv black = Hsv.mk 0 0 0 1
      /\ hsvRef (flush teal) = Hsv.mk 200 0.5 0.5 1
      /\ isInternalUpdate (flush teal) = false
      /\ hsvRef st' = Hsv.mk 0 0 0 1
      /\ hsvRef st' <> Hsv.mk 200 0.5 0 1).
Proof.
  repeat split; try (vm_compute; reflexivity);
    intros H; apply (f_equal Hsv.h) in H; revert H; apply float_neq;
    vm_compute; reflexivity.
Qed.

(** C5 as stated fails: after [setHsv({h: 90})] the preview is
    [#80ff00], whose [hsv] is recomputed from RGB and has a hue of about
    89.88, not 90; and after [setHsv({h: 90.4})] the preview comes from
    the hue 90.4, not from the rounded hue 90. *)
Lemma setHsv_90_preview_hsv :
  let st := updateHsv engine (onlyH 90) mounted in
  let st' := updateHsv engine (onlyH 90.4) mounted in
  hex (previewColorRef st) = "#80ff00"%string
  /\ rgb (previewColorRef st) = Rgb.mk 128 255 0 1
  /\ hsv (previewColorRef st) = Hsv.mk 89.882352941176464 1 1 1
  /\ hsv (previewColorRef st) <> pureHue 90
  /\ Hsv.h (hsvRef st') = 90%float
  /\ rgb (previewColorRef st') = Rgb.mk 126 255 0 1
  /\ previewColorRef st' <> (parseColor engine ∅ (InHsv (pureHue 90))).1.
Proof.
  repeat split; try (vm_compute; reflexivity).
  - intros H. apply (f_equal Hsv.h) in H. revert H. apply float_neq. vm_compute; reflexivity.
  - intros H. apply (f_equal hex) in H. vm_compute in H. discriminate H.
Qed.

(** C6 as stated fails: [setColor] moves the tracked hue and leaves the
    preview behind. *)
Lemma setColor_leaves_preview :
  let st := run engine mounted [SetColor blue; Flush] in
  Hsv.h (hsvRef st) = 240%float
  /\ hex (previewColorRef st) = "#ff0000"%string
  /\ hex (parseColor engine ∅ (InHsv (pureHue (Hsv.h (hsvRef st))))).1 = "#0000ff"%string
  /\ previewColorRef st <> (parseColor engine ∅ (InHsv (pureHue (Hsv.h (hsvRef st))))).1.
Proof.
  repeat split; try (vm_compute; reflexivity).
  intros H. apply (f_equal hex) in H. vm_compute in H. discriminate H.
Qed.

Lemma hsv_roundtrip_witness :
  hsvToRgb (rgbToHsv (Rgb.mk (channel 100) (channel 150) (channel 200) 1))
  = Rgb.mk (channel 100) (channel 150) (channel 200) 1.
Proof. apply (hsv_roundtrip 100 150 200 1); lia. Defined.

(** C1 as stated fails for [a == 0]: transparent white is written
    [#ffffff00] (as the unit test "should handle transparency in hex"
    expects), not [#00000000].  The earlier revision of [rgbToHex] does
    return [#00000000] there, but never writes an alpha byte. *)
Lemma rgbToHex_transparent_white :
  let white0 := Rgb.mk (channel 255) (channel 255) (channel 255) 0 in
  PrimFloat.eqb (Rgb.a white0) 0 = true
  /\ (forall env, rgbToHex env white0 = "#ffffff00"%string)
  /\ rgbToHex engine white0 <> "#00000000"%string
  /\ Legacy.rgbToHex engine white0 = "#00000000"%string
  /\ Legacy.rgbToHex engine (Rgb.mk (channel 0) (channel 255) (channel 0) 0.5)
     = "#00ff00"%string.
Proof.
  repeat split; try (vm_compute; reflexivity).
  intros H. vm_compute in H. discriminate H.
Qed.

Lemma rgbToHex_layout_witness :
  rgbToHex engine (Rgb.mk (channel 0) (channel 255) (channel 0) 0.5) = "#00ff0080"%string
  /\ rgbToHex engine (Rgb.mk (channel 51) (channel 102) (channel 153) 0) = "#33669900"%string
  /\ rgbToHex engine (Rgb.mk (channel 51) (channel 102) (channel 153) 1) = "#336699"%string.
Proof.
  pose proof (rgbToHex_layout engine 0 255 0 0.5
                ltac:(lia) ltac:(lia) ltac:(lia)) as (Hlt & _).
  pose proof (rgbToHex_layout engine 51 102 153 0
                ltac:(lia) ltac:(lia) ltac:(lia)) as (_ & Hzero & _).
  pose proof (rgbToHex_layout engine 51 102 153 1
                ltac:(lia) ltac:(lia) ltac:(lia)) as (_ & _ & _ & Hone).
  split; [| split].
  - rewrite Hlt by reflexivity. vm_compute. reflexivity.
  - apply Hzero. reflexivity.
  - apply Hone. reflexivity.
Defined.

(** C8 on the code: once [rgb(300, 0, 0)] has been parsed, its hex form
    [#12c0000] is a key of the cache although it is not a colour;
    [parseToRgb] gives no result for it, and [parseColor] answers with the
    cached entry instead of opaque black. *)
Theorem parseColor_stale_entry :
  let cache := (parseColor engine ∅ (InString "rgb(300, 0, 0)")).2 in
  parseToRgb engine (InString "#12c0000") = None
  /\ (parseColor engine ∅ (InString "#12c0000")).1 = colorValueOf engine opaque_black
  /\ (parseColor engine cache (InString "#12c0000")).1
     = colorValueOf engine (Rgb.mk 300 0 0 1)
  /\ (parseColor engine cache (InString "#12c0000")).1 <> colorValueOf engine opaque_black.
Proof.
  repeat split; try (vm_compute; reflexivity).
  intros H. apply (f_equal hex) in H. vm_compute in H. discriminate H.
Qed.

End Samples.

(** ** More of the code, on sample inputs *)

Section MoreSamples.

Import Reference Sample.

Local Open Scope float_scope.

Lemma hexToRgb_valid_hex_witness :
  (exists nr ng nb na : Z,
      ((0 <= nr <= 255) /\ (0 <= ng <= 255) /\ (0 <= nb <= 255) /\ (0 <= na <= 255))%Z
      /\ hexToRgb engine "#1A2b3C80"
         = Some (Rgb.mk (channel nr) (channel ng) (channel nb) (channel na / 255)))
  /\ (exists nr ng nb : Z,
         ((0 <= nr <= 255) /\ (0 <= ng <= 255) /\ (0 <= nb <= 255))%Z
         /\ hexToRgb engine "#1A2b3C"
            = Some (Rgb.mk (channel nr) (channel ng) (channel nb) 1)).
Proof.
  split.
  - exact (hexToRgb_valid_hex engine "#1A2b3C80" eq_refl).
  - destruct (hexToRgb_valid_hex engine "#1A2b3C" eq_refl)
      as (nr & ng & nb & na & (Hr & Hg & Hb & _) & H).
    exists nr, ng, nb. split; [auto | exact H].
Defined.

Lemma rgb_hex_rgb_witness :
  hexToRgb engine (rgbToHex engine (Rgb.mk (channel 18) (channel 52) (channel 86)
                                           (channel 128 / 255)))
  = Some (Rgb.mk (channel 18) (channel 52) (channel 86) (channel 128 / 255)).
Proof. apply (rgb_hex_rgb engine 18 52 86 128); lia. Defined.

Lemma isValidColor_parses_witness :
  is_Some (parseToRgb engine (InString "  RGB(1, 2, 3) ")).
Proof.
  apply (isValidColor_parses engine "  RGB(1, 2, 3) " FormatRgb);
    [discriminate | reflexivity].
Defined.

Lemma framePosition_range_witness :
  ColorPickerArea.framePosition 30 250 120 200 = Some (0.25, 1)
  /\ within 0 1 0.25 /\ within 0 1 1.
Proof.
  split; [reflexivity |].
  destruct (framePosition_range 30 250 120 200 0.25 1 eq_refl)
    as (_ & _ & _ & _ & Hx & Hy).
  split; [apply Hx | apply Hy]; reflexivity.
Defined.

Lemma setHsv_hue_range_witness :
  within 0 360 (Hsv.h (hsvRef (updateHsv engine (onlyH 400.5) mounted))).
Proof.
  destruct (setHsv_hue_range engine mounted (onlyH 400.5) 400.5 eq_refl) as [H _].
  apply H. rewrite updateHsv_hsvRef. reflexivity.
Defined.

Lemma saturation_drag_witness :
  ColorPickerSaturation.frameUpdate 30 250 120 200 = Some (HsvUpdate.mk None (Some 0.25) (Some 0) None)
  /\ Hsv.h (hsvRef (updateHsv engine (HsvUpdate.mk None (Some 0.25) (Some 0) None) mounted))
     = Hsv.h (hsvRef mounted)
  /\ previewColorRef (updateHsv engine (HsvUpdate.mk None (Some 0.25) (Some 0) None) mounted)
     = previewColorRef mounted.
Proof.
  split; [reflexivity |].
  destruct (saturation_drag engine mounted 30 250 120 200
              (HsvUpdate.mk None (Some 0.25) (Some 0) None) eq_refl)
    as (_ & _ & Hh & _ & Hp).
  split; [exact Hh | exact Hp].
Defined.

Lemma area_change_witness :
  Hsv.s (hsvRef (updateHsv engine (ColorPicker.hueChange (0.25, 1)) mounted))
  = Hsv.s (hsvRef mounted)
  /\ Hsv.s (hsvRef (updateHsv engine (ColorPicker.saturationChange (0.25, 1)) mounted))
     = 0.25.
Proof.
  destruct (area_change engine mounted 30 250 120 200 (0.25, 1) eq_refl)
    as ((_ & Hs & _) & (Hs2 & _)).
  split; [exact Hs | exact Hs2].
Defined.

Lemma rgbToHsv_range_witness :
  within 0 1 (Hsv.s (rgbToHsv (Rgb.mk (channel 255) (channel 128) (channel 0) 0.5)))
  /\ Hsv.v (rgbToHsv (Rgb.mk (channel 255) (channel 128) (channel 0) 0.5))
     = channel 255 / 255.
Proof.
  destruct (rgbToHsv_range 255 128 0 0.5 ltac:(lia) ltac:(lia) ltac:(lia))
    as (Hs & _ & Hv & _).
  split; [exact Hs | exact Hv].
Defined.

Lemma formatColor_parses_back_witness :
  let c := Rgb.mk (channel 18) (channel 52) (channel 86) 1 in
  parseToRgb engine (InString (formatColor (colorValueOf engine c) FormatHex)) = Some c
  /\ parseToRgb engine (InString (formatColor (colorValueOf engine c) FormatRgb)) = Some c.
Proof.
  destruct (formatColor_parses_back engine 18 52 86 ltac:(lia) ltac:(lia) ltac:(lia))
    as [Hhex Hrgb].
  split; [exact Hhex | exact (Hrgb eq_refl)].
Defined.

Lemma handleInput_shown_text_witness :
  let color := colorValueOf engine (Rgb.mk (channel 18) (channel 52) (channel 86) 1) in
  (ColorPickerInput.handleInput engine ∅ color FormatRgb
     (formatColor color FormatRgb)).1.2 = None.
Proof.
  intros color.
  assert (Hcache : forall v, (∅ : gmap string ColorValue) !! formatColor color FormatRgb
                             = Some v -> v = color)
    by (intros v H; rewrite lookup_empty in H; discriminate H).
  pose proof (handleInput_shown_text engine ∅ 18 52 86 FormatRgb
                ltac:(lia) ltac:(lia) ltac:(lia)
                (or_intror (conj eq_refl eq_refl)) Hcache) as H.
  cbv zeta in H.
  fold color in H.
  destruct (ColorPickerInput.handleInput engine ∅ color FormatRgb _) as [[l c] k].
  exact (proj1 (proj2 H)).
Defined.

Lemma rgb_text_unchecked_witness :
  parseToRgb engine (InString "rgb(300, 0, 0)") = Some (Rgb.mk 300 0 0 1)
  /\ (parseColor engine ∅ (InString "rgb(300, 0, 0)")).1
     = colorValueOf engine (Rgb.mk 300 0 0 1).
Proof.
  exact (rgb_text_unchecked engine "3" ["0"; "0"]%char "0" []%char "0" []%char
           eq_refl eq_refl eq_refl eq_refl).
Defined.

End MoreSamples.
